(** * Event publish/dispatch engine: pkg/services/eventactions/manager/service.go

    A shallow embedding of the request builders ([createWebhookRequest],
    [createRunnerRequest]), of the executor ([RunEventAction]) and of the
    dispatcher ([Publish], with its three worker goroutines, its buffered
    channel and its WaitGroup) together with the properties proved of them. *)

From Stdlib Require Import String Ascii List ZArith NArith Lia Bool Arith.
From Stdlib Require Import Permutation DecimalPos DecimalZ.
Import ListNotations.

Local Open Scope string_scope.

Set Warnings "-register-all".

(** ** Errors, results and panics *)

(** A Go [error]: a leaf message, or [fmt.Errorf("msg: %w", cause)]. *)
Inductive error : Type :=
| ErrNew (msg : string)
| ErrWrap (msg : string) (cause : error).

(** The pair [(value, error)] a Go function returns. *)
Inductive result (A : Type) : Type :=
| Ok (a : A)
| Err (e : error).

Arguments Ok {A} a.
Arguments Err {A} e.

(** What a call does: it returns, or the goroutine panics. *)
Inductive outcome (A : Type) : Type :=
| Returns (r : result A)
| Panics (msg : string).

Arguments Returns {A} r.
Arguments Panics {A} msg.

Definition bind {A B : Type} (r : result A) (k : A -> result B) : result B :=
  match r with
  | Ok a => k a
  | Err e => Err e
  end.

(** [wrap msg r] is the idiom
    [if err != nil { return nil, fmt.Errorf("msg: %w", err) }]. *)
Definition wrap {A : Type} (msg : string) (r : result A) : result A :=
  match r with
  | Ok a => Ok a
  | Err e => Err (ErrWrap msg e)
  end.

Notation "x <- r ;; k" := (bind r (fun x => k))
  (at level 61, r at next level, right associativity).

(** ** JSON documents and [encoding/json]

    The payload of an event is an [interface{}]; [value] is the part of Go's
    values the model covers.  Numbers are integers (floating point is left
    out), a struct or map is given by its fields in the order [json.Marshal]
    writes them, and [VFunc] stands for the values Marshal rejects (functions,
    channels).  Strings are byte strings holding well-formed UTF-8 text, and
    a byte above 127 is written as it is.  (Marshal also writes U+2028 and
    U+2029 as escapes, which read back the same, and rewrites ill-formed
    bytes to U+FFFD; neither is modelled.) *)

Inductive json : Type :=
| JNull
| JBool (b : bool)
| JNum (n : Z)
| JStr (s : string)
| JArr (elems : list json)
| JObj (fields : list (string * json)).

Inductive value : Type :=
| VNil
| VBool (b : bool)
| VInt (n : Z)
| VString (s : string)
| VSlice (elems : list value)
| VStruct (fields : list (string * value))
| VFunc.

Definition dquote : ascii := "034"%char.
Definition backslash : ascii := "092"%char.

Definition hexdigit (n : N) : ascii :=
  if (n <? 10)%N then ascii_of_N (48 + n) else ascii_of_N (87 + n).

Definition hexval (c : ascii) : option N :=
  let n := N_of_ascii c in
  if ((48 <=? n) && (n <=? 57))%N then Some (n - 48)%N
  else if ((97 <=? n) && (n <=? 102))%N then Some (n - 87)%N
  else if ((65 <=? n) && (n <=? 70))%N then Some (n - 55)%N
  else None.

(** The bytes Marshal writes for one byte of a string: the two-character
    escapes for the quote, the backslash, newline, carriage return and tab;
    [\u00XX] for the other control characters and, as Marshal escapes HTML,
    for [<], [>] and [&]; the byte itself otherwise. *)
Definition escape_char (c : ascii) : string :=
  let n := N_of_ascii c in
  if (n =? 34)%N then String backslash (String dquote "")
  else if (n =? 92)%N then String backslash (String backslash "")
  else if (n =? 10)%N then String backslash "n"
  else if (n =? 13)%N then String backslash "r"
  else if (n =? 9)%N then String backslash "t"
  else if ((n <? 32) || (n =? 60) || (n =? 62) || (n =? 38))%N
       then String backslash
              (String "u" (String "0" (String "0"
                (String (hexdigit (n / 16)) (String (hexdigit (n mod 16)) "")))))
  else String c "".

Fixpoint escape (s : string) : string :=
  match s with
  | EmptyString => ""
  | String c r => escape_char c ++ escape r
  end.

Definition quote (s : string) : string :=
  String dquote (escape s ++ String dquote "").

Fixpoint digits (d : Decimal.uint) : string :=
  match d with
  | Decimal.Nil => ""
  | Decimal.D0 r => String "0" (digits r)
  | Decimal.D1 r => String "1" (digits r)
  | Decimal.D2 r => String "2" (digits r)
  | Decimal.D3 r => String "3" (digits r)
  | Decimal.D4 r => String "4" (digits r)
  | Decimal.D5 r => String "5" (digits r)
  | Decimal.D6 r => String "6" (digits r)
  | Decimal.D7 r => String "7" (digits r)
  | Decimal.D8 r => String "8" (digits r)
  | Decimal.D9 r => String "9" (digits r)
  end.

(** [strconv.AppendInt(n, 10)]. *)
Definition itoa (n : Z) : string :=
  match Z.to_int n with
  | Decimal.Pos d => digits d
  | Decimal.Neg d => String "-" (digits d)
  end.

(** The compact text Marshal writes for a document. *)
Fixpoint encode (j : json) : string :=
  match j with
  | JNull => "null"
  | JBool true => "true"
  | JBool false => "false"
  | JNum n => itoa n
  | JStr s => quote s
  | JArr l =>
      let fix elems (l : list json) : string :=
        match l with
        | [] => "]"
        | [x] => encode x ++ "]"
        | x :: r => encode x ++ String "," (elems r)
        end in
      String "[" (elems l)
  | JObj fs =>
      let fix members (fs : list (string * json)) : string :=
        match fs with
        | [] => "}"
        | [(k, x)] => quote k ++ String ":" (encode x ++ "}")
        | (k, x) :: r => quote k ++ String ":" (encode x ++ String "," (members r))
        end in
      String "{" (members fs)
  end.

(** The reflection stage of Marshal: the document of a value, or the
    [UnsupportedTypeError] for a value that has none. *)
Fixpoint to_json (v : value) : result json :=
  match v with
  | VNil => Ok JNull
  | VBool b => Ok (JBool b)
  | VInt n => Ok (JNum n)
  | VString s => Ok (JStr s)
  | VSlice l =>
      let fix go (l : list value) : result (list json) :=
        match l with
        | [] => Ok []
        | x :: r => j <- to_json x ;; js <- go r ;; Ok (j :: js)
        end in
      js <- go l ;; Ok (JArr js)
  | VStruct fs =>
      let fix go (fs : list (string * value)) : result (list (string * json)) :=
        match fs with
        | [] => Ok []
        | (k, x) :: r => j <- to_json x ;; js <- go r ;; Ok ((k, j) :: js)
        end in
      js <- go fs ;; Ok (JObj js)
  | VFunc => Err (ErrNew "json: unsupported type")
  end.

Definition json_Marshal (v : value) : result string :=
  j <- to_json v ;; Ok (encode j).

(** *** Reading the text back *)

(** UTF-8 of a code point of the basic plane, for [\uXXXX]. *)
Definition utf8 (cp : N) : string :=
  if (cp <? 128)%N then String (ascii_of_N cp) ""
  else if (cp <? 2048)%N then
    String (ascii_of_N (192 + cp / 64)) (String (ascii_of_N (128 + cp mod 64)) "")
  else
    String (ascii_of_N (224 + cp / 4096))
      (String (ascii_of_N (128 + (cp / 64) mod 64))
        (String (ascii_of_N (128 + cp mod 64)) "")).

Definition simple_escape (c : ascii) : option ascii :=
  let n := N_of_ascii c in
  if (n =? 34)%N then Some dquote
  else if (n =? 92)%N then Some backslash
  else if (n =? 47)%N then Some "/"%char
  else if (n =? 98)%N then Some "008"%char
  else if (n =? 102)%N then Some "012"%char
  else if (n =? 110)%N then Some "010"%char
  else if (n =? 114)%N then Some "013"%char
  else if (n =? 116)%N then Some "009"%char
  else None.

Definition hex4 (a b c d : ascii) : option N :=
  match hexval a, hexval b, hexval c, hexval d with
  | Some x, Some y, Some z, Some w => Some (((x * 16 + y) * 16 + z) * 16 + w)%N
  | _, _, _, _ => None
  end.

Definition prepend (p : string) (r : option (string * string)) : option (string * string) :=
  match r with
  | Some (s, rest) => Some (p ++ s, rest)
  | None => None
  end.

(** The body of a string literal, after its opening quote: the text up to the
    closing quote, and what follows it. *)
Fixpoint unescape (s : string) : option (string * string) :=
  match s with
  | EmptyString => None
  | String c r =>
      if (N_of_ascii c =? 34)%N then Some ("", r)
      else if (N_of_ascii c =? 92)%N then
        match r with
        | EmptyString => None
        | String e r1 =>
            match simple_escape e with
            | Some d => prepend (String d "") (unescape r1)
            | None =>
                if (N_of_ascii e =? 117)%N then
                  match r1 with
                  | String h1 (String h2 (String h3 (String h4 r2))) =>
                      match hex4 h1 h2 h3 h4 with
                      | Some cp => prepend (utf8 cp) (unescape r2)
                      | None => None
                      end
                  | _ => None
                  end
                else None
            end
        end
      else if (N_of_ascii c <? 32)%N then None
      else prepend (String c "") (unescape r)
  end.

Definition digit_of (c : ascii) : option (Decimal.uint -> Decimal.uint) :=
  let n := N_of_ascii c in
  if (n =? 48)%N then Some Decimal.D0
  else if (n =? 49)%N then Some Decimal.D1
  else if (n =? 50)%N then Some Decimal.D2
  else if (n =? 51)%N then Some Decimal.D3
  else if (n =? 52)%N then Some Decimal.D4
  else if (n =? 53)%N then Some Decimal.D5
  else if (n =? 54)%N then Some Decimal.D6
  else if (n =? 55)%N then Some Decimal.D7
  else if (n =? 56)%N then Some Decimal.D8
  else if (n =? 57)%N then Some Decimal.D9
  else None.

(** The longest run of digits at the head of a text, and the rest. *)
Fixpoint read_digits (s : string) : Decimal.uint * string :=
  match s with
  | EmptyString => (Decimal.Nil, s)
  | String c r =>
      match digit_of c with
      | Some D => let (d, rest) := read_digits r in (D d, rest)
      | None => (Decimal.Nil, s)
      end
  end.

Definition read_number (s : string) : option (Z * string) :=
  match s with
  | EmptyString => None
  | String c r =>
      if (N_of_ascii c =? 45)%N then
        match read_digits r with
        | (Decimal.Nil, _) => None
        | (d, rest) => Some (Z.of_int (Decimal.Neg d), rest)
        end
      else
        match read_digits s with
        | (Decimal.Nil, _) => None
        | (d, rest) => Some (Z.of_int (Decimal.Pos d), rest)
        end
  end.

Fixpoint strip (p s : string) : option string :=
  match p, s with
  | EmptyString, _ => Some s
  | String a p', String b s' => if Ascii.eqb a b then strip p' s' else None
  | String _ _, EmptyString => None
  end.

(** A recursive-descent reader of compact JSON text; [fuel] bounds the
    nesting and the number of elements. *)
Fixpoint decode_value (fuel : nat) (s : string) : option (json * string) :=
  match fuel with
  | O => None
  | S fuel' =>
      match read_number s with
      | Some (n, rest) => Some (JNum n, rest)
      | None =>
          match s with
          | EmptyString => None
          | String c r =>
              let n := N_of_ascii c in
              if (n =? 110)%N then option_map (pair JNull) (strip "ull" r)
              else if (n =? 116)%N then option_map (pair (JBool true)) (strip "rue" r)
              else if (n =? 102)%N then option_map (pair (JBool false)) (strip "alse" r)
              else if (n =? 34)%N then
                match unescape r with
                | Some (x, rest) => Some (JStr x, rest)
                | None => None
                end
              else if (n =? 91)%N then
                match strip "]" r with
                | Some rest => Some (JArr [], rest)
                | None =>
                    match decode_elems fuel' r with
                    | Some (l, rest) => Some (JArr l, rest)
                    | None => None
                    end
                end
              else if (n =? 123)%N then
                match strip "}" r with
                | Some rest => Some (JObj [], rest)
                | None =>
                    match decode_members fuel' r with
                    | Some (l, rest) => Some (JObj l, rest)
                    | None => None
                    end
                end
              else None
          end
      end
  end
with decode_elems (fuel : nat) (s : string) : option (list json * string) :=
  match fuel with
  | O => None
  | S fuel' =>
      match decode_value fuel' s with
      | Some (x, String c rest) =>
          if (N_of_ascii c =? 93)%N then Some ([x], rest)
          else if (N_of_ascii c =? 44)%N then
            match decode_elems fuel' rest with
            | Some (l, rest') => Some (x :: l, rest')
            | None => None
            end
          else None
      | _ => None
      end
  end
with decode_members (fuel : nat) (s : string) : option (list (string * json) * string) :=
  match fuel with
  | O => None
  | S fuel' =>
      match s with
      | String q r =>
          if (N_of_ascii q =? 34)%N then
            match unescape r with
            | Some (k, String colon r1) =>
                if (N_of_ascii colon =? 58)%N then
                  match decode_value fuel' r1 with
                  | Some (x, String c rest) =>
                      if (N_of_ascii c =? 125)%N then Some ([(k, x)], rest)
                      else if (N_of_ascii c =? 44)%N then
                        match decode_members fuel' rest with
                        | Some (l, rest') => Some ((k, x) :: l, rest')
                        | None => None
                        end
                      else None
                  | _ => None
                  end
                else None
            | _ => None
            end
          else None
      | EmptyString => None
      end
  end.

(** [json.Unmarshal] into an [interface{}], on compact text. *)
Definition json_Unmarshal (s : string) : option json :=
  match decode_value (S (String.length s)) s with
  | Some (j, EmptyString) => Some j
  | _ => None
  end.

(** *** Auxiliary definitions for the round trip *)

Section json_induction.
Variable P : json -> Prop.
Hypothesis HNull : P JNull.
Hypothesis HBool : forall b, P (JBool b).
Hypothesis HNum : forall n, P (JNum n).
Hypothesis HStr : forall s, P (JStr s).
Hypothesis HArr : forall l, Forall P l -> P (JArr l).
Hypothesis HObj : forall fs, Forall (fun kv => P (snd kv)) fs -> P (JObj fs).

Fixpoint json_nested_ind (j : json) : P j :=
  match j with
  | JNull => HNull
  | JBool b => HBool b
  | JNum n => HNum n
  | JStr s => HStr s
  | JArr l =>
      HArr l ((fix all (l : list json) : Forall P l :=
                 match l with
                 | [] => Forall_nil _
                 | x :: r => Forall_cons _ (json_nested_ind x) (all r)
                 end) l)
  | JObj fs =>
      HObj fs ((fix all (fs : list (string * json)) : Forall (fun kv => P (snd kv)) fs :=
                  match fs with
                  | [] => Forall_nil _
                  | kv :: r => Forall_cons _ (json_nested_ind (snd kv)) (all r)
                  end) fs)
  end.
End json_induction.

Fixpoint encode_elems (l : list json) : string :=
  match l with
  | [] => "]"
  | [x] => encode x ++ "]"
  | x :: r => encode x ++ String "," (encode_elems r)
  end.

Fixpoint encode_members (fs : list (string * json)) : string :=
  match fs with
  | [] => "}"
  | [(k, x)] => quote k ++ String ":" (encode x ++ "}")
  | (k, x) :: r => quote k ++ String ":" (encode x ++ String "," (encode_members r))
  end.

(** The fuel a document needs. *)
Fixpoint weight (j : json) : nat :=
  match j with
  | JArr l => S (list_sum (map (fun x => S (weight x)) l))
  | JObj fs => S (list_sum (map (fun kv => S (weight (snd kv))) fs))
  | _ => 1
  end.

Definition no_digit_ahead (s : string) : Prop :=
  match s with
  | EmptyString => True
  | String c _ => digit_of c = None
  end.

Definition decodes (x : json) : Prop :=
  forall fuel rest, weight x <= fuel -> no_digit_ahead rest ->
    decode_value fuel (encode x ++ rest) = Some (x, rest).

(** ** The HTTP requests the builders make

    [textproto.MIMEHeader] and [http.Header] are maps from a header name to
    its value; the names the code sets are already in canonical form. *)

Definition Header : Type := list (string * string).

Definition Header_Set (h : Header) (key val : string) : Header :=
  (filter (fun kv => negb (String.eqb (fst kv) key)) h ++ [(key, val)])%list.

Definition Header_Get (h : Header) (key : string) : option string :=
  option_map snd (find (fun kv => String.eqb (fst kv) key) h).

Definition quoted (s : string) : string := String dquote (s ++ String dquote "").

(** [mime/multipart]: a [Writer] over a [bytes.Buffer], kept as the parts
    written so far.  [boundary] is the random boundary [NewWriter] draws,
    [lastpart] says whether the last part is still open. *)
Module multipart.

Record Part : Type := {
  PartHeader : Header;
  PartData : string
}.

Record Writer : Type := {
  boundary : string;
  parts : list Part;
  lastpart : bool;
  closed : bool
}.

Definition NewWriter (b : string) : Writer :=
  {| boundary := b; parts := []; lastpart := false; closed := false |}.

(** [CreatePart] closes the part before and opens a new one; the [nat] is the
    handle of the new part. *)
Definition CreatePart (w : Writer) (header : Header) : result (Writer * nat) :=
  Ok ({| boundary := boundary w;
         parts := (parts w ++ [{| PartHeader := header; PartData := "" |}])%list;
         lastpart := true;
         closed := closed w |},
      List.length (parts w)).

Definition escapeQuotes (s : string) : string :=
  (fix go (s : string) : string :=
     match s with
     | EmptyString => ""
     | String c r =>
         if (N_of_ascii c =? 34)%N then String backslash (String dquote (go r))
         else if (N_of_ascii c =? 92)%N then String backslash (String backslash (go r))
         else String c (go r)
     end) s.

Definition CreateFormFile (w : Writer) (fieldname filename : string) : result (Writer * nat) :=
  let h := Header_Set []
             "Content-Disposition"
             ("form-data; name=" ++ quoted (escapeQuotes fieldname)
                ++ "; filename=" ++ quoted (escapeQuotes filename)) in
  let h := Header_Set h "Content-Type" "application/octet-stream" in
  CreatePart w h.

Fixpoint write_last (ps : list Part) (data : string) : list Part :=
  match ps with
  | [] => []
  | [p] => [{| PartHeader := PartHeader p; PartData := PartData p ++ data |}]
  | p :: r => p :: write_last r data
  end.

(** [part.Write]: only the open, last part takes data. *)
Definition Write (w : Writer) (part : nat) (data : string) : result Writer :=
  if lastpart w && Nat.eqb (S part) (List.length (parts w)) then
    Ok {| boundary := boundary w;
          parts := write_last (parts w) data;
          lastpart := true;
          closed := closed w |}
  else Err (ErrNew "multipart: can't write to finished part").

Definition Close (w : Writer) : result Writer :=
  Ok {| boundary := boundary w; parts := parts w; lastpart := false; closed := true |}.

Definition FormDataContentType (w : Writer) : string :=
  "multipart/form-data; boundary=" ++ boundary w.


End multipart.

Module http.

Inductive body : Type :=
| Bytes (data : string)                 (* bytes.NewReader(data) *)
| Form (w : multipart.Writer).          (* the buffer a multipart writer filled *)

Record Request : Type := {
  Method : string;
  URL : string;
  Header : Header;
  Body : body
}.

Record Response : Type := {
  StatusCode : Z;
  ResponseBody : result string          (* what io.ReadAll gives on the body *)
}.

Definition MethodPost : string := "POST".

Definition SetHeader (req : Request) (key val : string) : Request :=
  {| Method := Method req; URL := URL req;
     Header := Header_Set (Header req) key val; Body := Body req |}.

End http.

(** ** Package [eventactions]: the records the service uses *)
Module eventactions.

Record EventActionDetailsDTO : Type := {
  OrgId : Z;
  Name : string;
  Type_ : string;
  URL : string;
  Script : string;
  ScriptLanguage : string;
  RunnerSecret : string
}.

Record RunResponse : Type := {
  Code : Z;
  Body : string
}.

Record PublishEvent : Type := {
  EventName : string;
  PublishOrgId : Z;
  Payload : value
}.

(** Modelled from the spec: the declaration of [PublishEvent] and its JSON
    tags are not in the sources; the webhook wire protocol names the members
    [eventName], [orgId] and [payload], in that order. *)
Definition PublishEvent_value (e : PublishEvent) : value :=
  VStruct [("eventName", VString (EventName e));
           ("orgId", VInt (PublishOrgId e));
           ("payload", Payload e)].

(** The store behind [s.actions], of which [Publish] calls one method. *)
Record Store : Type := {
  RetrieveEventActionsByRegisteredEvent :
    Z -> string -> result (list EventActionDetailsDTO)
}.

End eventactions.

Import eventactions.

(** What the service takes from elsewhere: the two action type constants of
    package [eventactions] (not in the sources), and of [net/url] whether
    [url.Parse] accepts a text and what [url.JoinPath] answers. *)
Record Env : Type := {
  ActionTypeCode : string;
  ActionTypeWebhook : string;
  url_Parse_ok : string -> bool;
  url_JoinPath : string -> string -> result string
}.

(** [http.NewRequest]: fails when the URL does not parse; the new request has
    no header. *)
Definition http_NewRequest (E : Env) (method url : string) (b : http.body)
  : result http.Request :=
  if url_Parse_ok E url then
    Ok {| http.Method := method; http.URL := url; http.Header := []; http.Body := b |}
  else Err (ErrNew "parse: invalid URL").

Record runnerMetadata : Type := {
  MetaName : string;      (* `json:"name"` *)
  Lang : string;          (* `json:"lang"` *)
  Entry : string          (* `json:"entrypoint"` *)
}.

Definition runnerMetadata_value (m : runnerMetadata) : value :=
  VStruct [("name", VString (MetaName m));
           ("lang", VString (Lang m));
           ("entrypoint", VString (Entry m))].

(** [s.client]. *)
Record Client : Type := {
  Do : http.Request -> result http.Response
}.

Record EventsService : Type := {
  actions : Store;
  client : Client
}.

Notation "' ( x , y ) <- r ;; k" := (bind r (fun xy => let (x, y) := xy in k))
  (at level 61, x name, y name, r at next level, right associativity).

(** *** [createRunnerRequest] (lines 176-242) *)
Definition createRunnerRequest (E : Env) (boundary : string)
    (eventName : string) (eventPayload : value) (action : EventActionDetailsDTO)
  : result http.Request :=
  metadata <- wrap "cannot serialize runner metadata"
                (json_Marshal (runnerMetadata_value
                   {| MetaName := Name action;
                      Lang := ScriptLanguage action;
                      Entry := "file1" |})) ;;
  marshalledPayload <- wrap "cannot serialize event payload"
                         (json_Marshal eventPayload) ;;
  let w := multipart.NewWriter boundary in
  '(w, scriptFile) <- multipart.CreateFormFile w "file1" "file1" ;;
  w <- multipart.Write w scriptFile (Script action) ;;
  let metadataHeaders := Header_Set [] "Content-Disposition"
                           ("form-data; name=" ++ quoted "metadata") in
  let metadataHeaders := Header_Set metadataHeaders "Content-Type" "application/json" in
  '(w, metadataPart) <- multipart.CreatePart w metadataHeaders ;;
  w <- multipart.Write w metadataPart metadata ;;
  let payloadHeaders := Header_Set [] "Content-Disposition"
                          ("form-data; name=" ++ quoted "event") in
  let payloadHeaders := Header_Set payloadHeaders "Content-Type" "application/json" in
  '(w, payloadPart) <- multipart.CreatePart w payloadHeaders ;;
  w <- multipart.Write w payloadPart marshalledPayload ;;
  w <- multipart.Close w ;;
  url <- wrap "cannot create runner URL" (url_JoinPath E (URL action) "execute") ;;
  req <- wrap "cannot create runner request"
           (http_NewRequest E http.MethodPost url (http.Form w)) ;;
  let req := http.SetHeader req "Authorization" ("Bearer " ++ RunnerSecret action) in
  let req := http.SetHeader req "Content-Type" (multipart.FormDataContentType w) in
  Ok req.

(** *** [createWebhookRequest] (lines 244-262) *)
Definition createWebhookRequest (E : Env)
    (eventName : string) (eventPayload : value) (action : EventActionDetailsDTO)
  : result http.Request :=
  body <- wrap "cannot serialize external webhook payload"
            (json_Marshal (PublishEvent_value
               {| EventName := eventName;
                  PublishOrgId := OrgId action;
                  Payload := eventPayload |})) ;;
  req <- wrap "cannot create webhook request"
           (http_NewRequest E http.MethodPost (URL action) (http.Bytes body)) ;;
  let req := http.SetHeader req "Content-Type" "application/json" in
  Ok req.

Definition createRequestFunc : Type :=
  string -> value -> EventActionDetailsDTO -> result http.Request.

(** *** [RunEventAction] (lines 264-295)

    The switch of lines 267-273 has no default: for a type that is neither
    constant [createRequest] stays [nil], and calling [nil] panics. *)
Definition selectCreateRequest (E : Env) (boundary : string)
    (action : EventActionDetailsDTO) : option createRequestFunc :=
  if String.eqb (Type_ action) (ActionTypeCode E) then
    Some (createRunnerRequest E boundary)
  else if String.eqb (Type_ action) (ActionTypeWebhook E) then
    Some (createWebhookRequest E)
  else None.

Definition nil_call : string :=
  "runtime error: invalid memory address or nil pointer dereference".

Definition RunEventAction (E : Env) (s : EventsService) (boundary : string)
    (action : EventActionDetailsDTO) (eventName : string) (eventPayload : value)
  : outcome RunResponse :=
  match selectCreateRequest E boundary action with
  | None => Panics nil_call
  | Some createRequest =>
      Returns
        (req <- wrap "cannot create request"
                  (createRequest eventName eventPayload action) ;;
         response <- wrap "cannot perform request" (Do (client s) req) ;;
         body <- wrap "cannot read response body" (http.ResponseBody response) ;;
         Ok {| Code := http.StatusCode response; Body := body |})
  end.

(** ** [Publish] (lines 133-172) as an interleaving of its goroutines

    The goroutine of the caller and the worker goroutines take steps one at a
    time; a step is one operation on what they share (the channel [jobs], the
    WaitGroup [wg], the log) or one call of [RunEventAction]. *)

Definition numWorkers : nat := 3.

Inductive logline : Type :=
| LogResolveError (err : error) (orgID : Z) (event : string)      (* line 136 *)
| LogActionError (err : error) (action event : string)            (* line 151 *)
| LogPublished (event : string) (orgID : Z) (nactions nworkers : nat). (* line 169 *)

(** Where the caller's goroutine stands. *)
Inductive main_pc : Type :=
| AtResolve                                   (* before line 134 *)
| AtSpawn (w : nat)                           (* at the test of the loop of line 159 *)
| AtSend (rest : list EventActionDetailsDTO)  (* the loop of line 162, then close *)
| AtWait                                      (* line 167 *)
| Returned (err : option error).

(** Where a worker stands. *)
Inductive worker_pc : Type :=
| WEntry                                      (* started by [go], before line 147 *)
| WReceive                                    (* at the receive of line 149 *)
| WRunning (action : EventActionDetailsDTO) (call : nat)   (* inside line 150 *)
| WLeaving                                    (* loop left, deferred [wg.Done] due *)
| WExited.

Record state : Type := {
  main : main_pc;
  resolved : list EventActionDetailsDTO;      (* the local [actions] *)
  wg : Z;                                     (* counter of the WaitGroup *)
  jobs : list EventActionDetailsDTO;          (* buffer of the channel *)
  jobs_cap : nat;
  jobs_closed : bool;
  workers : list worker_pc;
  calls : nat;                                (* calls of RunEventAction begun *)
  finished : list (EventActionDetailsDTO * result RunResponse);
  log : list logline;
  panicked : option string                    (* the process died of a panic *)
}.

Definition init : state :=
  {| main := AtResolve; resolved := []; wg := 0; jobs := []; jobs_cap := 0;
     jobs_closed := false; workers := []; calls := 0; finished := [];
     log := []; panicked := None |}.

Definition set_main (pc : main_pc) (st : state) : state :=
  {| main := pc; resolved := resolved st; wg := wg st; jobs := jobs st;
     jobs_cap := jobs_cap st; jobs_closed := jobs_closed st;
     workers := workers st; calls := calls st; finished := finished st;
     log := log st; panicked := panicked st |}.

Definition set_resolved (l : list EventActionDetailsDTO) (st : state) : state :=
  {| main := main st; resolved := l; wg := wg st; jobs := jobs st;
     jobs_cap := List.length l; jobs_closed := jobs_closed st;
     workers := workers st; calls := calls st; finished := finished st;
     log := log st; panicked := panicked st |}.

Definition set_wg (n : Z) (st : state) : state :=
  {| main := main st; resolved := resolved st; wg := n; jobs := jobs st;
     jobs_cap := jobs_cap st; jobs_closed := jobs_closed st;
     workers := workers st; calls := calls st; finished := finished st;
     log := log st; panicked := panicked st |}.

Definition set_jobs (q : list EventActionDetailsDTO) (st : state) : state :=
  {| main := main st; resolved := resolved st; wg := wg st; jobs := q;
     jobs_cap := jobs_cap st; jobs_closed := jobs_closed st;
     workers := workers st; calls := calls st; finished := finished st;
     log := log st; panicked := panicked st |}.

Definition close_jobs (st : state) : state :=
  {| main := main st; resolved := resolved st; wg := wg st; jobs := jobs st;
     jobs_cap := jobs_cap st; jobs_closed := true;
     workers := workers st; calls := calls st; finished := finished st;
     log := log st; panicked := panicked st |}.

Definition set_workers (ws : list worker_pc) (st : state) : state :=
  {| main := main st; resolved := resolved st; wg := wg st; jobs := jobs st;
     jobs_cap := jobs_cap st; jobs_closed := jobs_closed st;
     workers := ws; calls := calls st; finished := finished st;
     log := log st; panicked := panicked st |}.

Definition set_calls (n : nat) (st : state) : state :=
  {| main := main st; resolved := resolved st; wg := wg st; jobs := jobs st;
     jobs_cap := jobs_cap st; jobs_closed := jobs_closed st;
     workers := workers st; calls := n; finished := finished st;
     log := log st; panicked := panicked st |}.

Definition add_finished (a : EventActionDetailsDTO) (r : result RunResponse)
    (st : state) : state :=
  {| main := main st; resolved := resolved st; wg := wg st; jobs := jobs st;
     jobs_cap := jobs_cap st; jobs_closed := jobs_closed st;
     workers := workers st; calls := calls st;
     finished := (finished st ++ [(a, r)])%list;
     log := log st; panicked := panicked st |}.

Definition add_log (l : logline) (st : state) : state :=
  {| main := main st; resolved := resolved st; wg := wg st; jobs := jobs st;
     jobs_cap := jobs_cap st; jobs_closed := jobs_closed st;
     workers := workers st; calls := calls st; finished := finished st;
     log := (log st ++ [l])%list; panicked := panicked st |}.

Definition panic (msg : string) (st : state) : state :=
  {| main := main st; resolved := resolved st; wg := wg st; jobs := jobs st;
     jobs_cap := jobs_cap st; jobs_closed := jobs_closed st;
     workers := workers st; calls := calls st; finished := finished st;
     log := log st; panicked := Some msg |}.

Fixpoint set_nth {A : Type} (i : nat) (x : A) (l : list A) : list A :=
  match l, i with
  | [], _ => []
  | _ :: r, O => x :: r
  | y :: r, S i' => y :: set_nth i' x r
  end.

Definition set_worker (i : nat) (pc : worker_pc) (st : state) : state :=
  set_workers (set_nth i pc (workers st)) st.

Inductive tid : Type :=
| Main
| Worker (i : nat).

Section PublishModel.

Variable E : Env.
Variable s : EventsService.
(** [rnd n] is the boundary [multipart.NewWriter] draws in the call of
    [RunEventAction] that was the [n]-th to begin. *)
Variable rnd : nat -> string.
Variable orgID : Z.
Variable eventName : string.
Variable eventPayload : value.

(** One step of the goroutine that called [Publish]: the body of [Publish],
    statement by statement. *)
Definition Publish_step (st : state) : option state :=
  match main st with
  | AtResolve =>
      match RetrieveEventActionsByRegisteredEvent (actions s) orgID eventName with
      | Err err =>
          Some (set_main (Returned (Some err))
                  (add_log (LogResolveError err orgID eventName) st))
      | Ok l => Some (set_main (AtSpawn 0) (set_resolved l st))
      end
  | AtSpawn w =>
      if Nat.ltb w numWorkers then
        Some (set_main (AtSpawn (S w))
                (set_workers (workers st ++ [WEntry])%list st))
      else Some (set_main (AtSend (resolved st)) st)
  | AtSend (action :: rest) =>
      if Nat.ltb (List.length (jobs st)) (jobs_cap st) then
        Some (set_main (AtSend rest) (set_jobs (jobs st ++ [action])%list st))
      else None
  | AtSend [] => Some (set_main AtWait (close_jobs st))
  | AtWait =>
      if (wg st =? 0)%Z then
        Some (set_main (Returned None)
                (add_log (LogPublished eventName orgID
                            (List.length (resolved st)) numWorkers) st))
      else None
  | Returned _ => None
  end.

(** One step of the worker of index [i]: the body of the closure [worker]
    (lines 145-154). *)
Definition worker_step (i : nat) (st : state) : option state :=
  match nth_error (workers st) i with
  | None => None
  | Some WEntry => Some (set_worker i WReceive (set_wg (wg st + 1) st))
  | Some WReceive =>
      match jobs st with
      | action :: q =>
          Some (set_worker i (WRunning action (calls st))
                  (set_calls (S (calls st)) (set_jobs q st)))
      | [] => if jobs_closed st then Some (set_worker i WLeaving st) else None
      end
  | Some (WRunning action n) =>
      match RunEventAction E s (rnd n) action eventName eventPayload with
      | Panics msg => Some (panic msg st)
      | Returns (Ok r) =>
          Some (set_worker i WReceive (add_finished action (Ok r) st))
      | Returns (Err err) =>
          Some (set_worker i WReceive
                  (add_log (LogActionError err (Name action) eventName)
                     (add_finished action (Err err) st)))
      end
  | Some WLeaving =>
      if (wg st - 1 <? 0)%Z then Some (panic "sync: negative WaitGroup counter" st)
      else Some (set_worker i WExited (set_wg (wg st - 1) st))
  | Some WExited => None
  end.

(** A panic ends the process: no goroutine steps after it. *)
Definition step (t : tid) (st : state) : option state :=
  match panicked st with
  | Some _ => None
  | None =>
      match t with
      | Main => Publish_step st
      | Worker i => worker_step i st
      end
  end.

(** Running a schedule: the goroutines step in the order it gives. *)
Fixpoint exec (sched : list tid) (st : state) : option state :=
  match sched with
  | [] => Some st
  | t :: r =>
      match step t st with
      | Some st' => exec r st'
      | None => None
      end
  end.

(** No goroutine can step: the run is over. *)
Definition quiescent (st : state) : Prop :=
  forall t, step t st = None.

End PublishModel.

(** What [Publish] returned, once it has. *)
Definition returned (st : state) : option (option error) :=
  match main st with
  | Returned err => Some err
  | _ => None
  end.

Definition running (pc : worker_pc) : bool :=
  match pc with
  | WRunning _ _ => true
  | _ => false
  end.

(** The calls of [RunEventAction] in flight. *)
Definition in_flight (st : state) : nat :=
  List.length (filter running (workers st)).

Definition running_action (pc : worker_pc) : list EventActionDetailsDTO :=
  match pc with
  | WRunning a _ => [a]
  | _ => []
  end.

Definition in_progress (st : state) : list EventActionDetailsDTO :=
  flat_map running_action (workers st).

Definition active (pc : worker_pc) : bool :=
  match pc with
  | WReceive | WRunning _ _ | WLeaving => true
  | WEntry | WExited => false
  end.

Definition unsent (st : state) : list EventActionDetailsDTO :=
  match main st with
  | AtResolve => []
  | AtSpawn _ => resolved st
  | AtSend rest => rest
  | AtWait | Returned _ => []
  end.

Definition known_type (E : Env) (a : EventActionDetailsDTO) : Prop :=
  Type_ a = ActionTypeCode E \/ Type_ a = ActionTypeWebhook E.

(** *** Invariants and the measure of a run *)

Definition gone (pc : worker_pc) : bool :=
  match pc with
  | WLeaving | WExited => true
  | _ => false
  end.

Definition sending_done (pc : main_pc) : bool :=
  match pc with
  | AtWait | Returned _ => true
  | _ => false
  end.

(** The pool: no worker before the loop of line 159, [w] of them at its
    [w]-th test, [numWorkers] after it. *)
Definition pool_ok (st : state) : Prop :=
  match main st with
  | AtResolve => workers st = []
  | AtSpawn w => List.length (workers st) = w /\ w <= numWorkers
  | AtSend _ | AtWait | Returned None => List.length (workers st) = numWorkers
  | Returned (Some _) => workers st = []
  end.

(** What holds of every state after the store has answered [acts]. *)
Record Inv (acts : list EventActionDetailsDTO) (st : state) : Prop := {
  inv_main : main st <> AtResolve /\ (forall e, main st <> Returned (Some e));
  inv_resolved : resolved st = acts /\ jobs_cap st = List.length acts;
  inv_wg : wg st = Z.of_nat (List.length (filter active (workers st)));
  inv_conserve :
    Permutation (unsent st ++ jobs st ++ in_progress st ++ map fst (finished st))%list
                acts;
  inv_closed : jobs_closed st = sending_done (main st);
  inv_gone : existsb gone (workers st) = true ->
             jobs st = [] /\ jobs_closed st = true;
  inv_calls : calls st = List.length (in_progress st) + List.length (finished st)
}.




Section Scheduler.

Variable E : Env.
Variable s : EventsService.
Variable rnd : nat -> string.
Variable orgID : Z.
Variable eventName : string.
Variable eventPayload : value.



End Scheduler.

(** The states the caller's goroutine goes through when it runs alone: the
    workers are started, none has run yet. *)
Definition sending (acts rest q : list EventActionDetailsDTO) : state :=
  {| main := AtSend rest; resolved := acts; wg := 0; jobs := q;
     jobs_cap := List.length acts; jobs_closed := false;
     workers := [WEntry; WEntry; WEntry]; calls := 0; finished := [];
     log := []; panicked := None |}.

Definition returned_early (orgID : Z) (eventName : string)
    (acts : list EventActionDetailsDTO) : state :=
  {| main := Returned None; resolved := acts; wg := 0; jobs := acts;
     jobs_cap := List.length acts; jobs_closed := true;
     workers := [WEntry; WEntry; WEntry]; calls := 0; finished := [];
     log := [LogPublished eventName orgID (List.length acts) numWorkers];
     panicked := None |}.

(** The state after the store has failed with [err]. *)
Definition resolution_failed (orgID : Z) (eventName : string) (err : error) : state :=
  set_main (Returned (Some err)) (add_log (LogResolveError err orgID eventName) init).

(** ** Concrete inputs: the example scenario of the specification and its neighbours *)

(** [url.Parse] refuses a text with an ASCII control character. *)
Fixpoint no_control (u : string) : bool :=
  match u with
  | EmptyString => true
  | String c r =>
      ((32 <=? N_of_ascii c)%N && negb (N_of_ascii c =? 127)%N) && no_control r
  end.

Definition demo_env : Env :=
  {| ActionTypeCode := "code";
     ActionTypeWebhook := "webhook";
     url_Parse_ok := no_control;
     url_JoinPath := fun base elem =>
       if no_control base then Ok (base ++ "/" ++ elem)
       else Err (ErrNew "parse: invalid control character in URL") |}.

Definition hook_A : EventActionDetailsDTO :=
  {| OrgId := 1; Name := "A"; Type_ := "webhook"; URL := "http://h/hook";
     Script := ""; ScriptLanguage := ""; RunnerSecret := "" |}.

Definition runner_B : EventActionDetailsDTO :=
  {| OrgId := 1; Name := "B"; Type_ := "code"; URL := "http://r";
     Script := "print(1)"; ScriptLanguage := "python"; RunnerSecret := "s3cret" |}.

Definition hook_C : EventActionDetailsDTO :=
  {| OrgId := 1; Name := "C"; Type_ := "webhook"; URL := "http://c/hook";
     Script := ""; ScriptLanguage := ""; RunnerSecret := "" |}.



(** An action whose type is neither constant. *)
Definition mail_action : EventActionDetailsDTO :=
  {| OrgId := 1; Name := "M"; Type_ := "email"; URL := "http://m";
     Script := ""; ScriptLanguage := ""; RunnerSecret := "" |}.

Definition demo_payload : value := VStruct [("id", VInt 42)].

(** A service whose store answers [answer] and whose endpoints all answer
    with status [status] and body [text]. *)
Definition demo_service (answer : result (list EventActionDetailsDTO))
    (status : Z) (text : string) : EventsService :=
  {| actions := {| RetrieveEventActionsByRegisteredEvent := fun _ _ => answer |};
     client := {| Do := fun _ =>
                   Ok {| http.StatusCode := status; http.ResponseBody := Ok text |} |} |}.

Definition demo_rnd (n : nat) : string := "b0undary".

Definition with_secret (secret : string) (a : EventActionDetailsDTO)
  : EventActionDetailsDTO :=
  {| OrgId := OrgId a; Name := Name a; Type_ := Type_ a; URL := URL a;
     Script := Script a; ScriptLanguage := ScriptLanguage a;
     RunnerSecret := secret |}.

(** A service whose endpoints are all down. *)
Definition refusing_service (answer : result (list EventActionDetailsDTO))
  : EventsService :=
  {| actions := {| RetrieveEventActionsByRegisteredEvent := fun _ _ => answer |};
     client := {| Do := fun _ => Err (ErrNew "dial tcp: connection refused") |} |}.

(** The caller runs up to its wait, then the three workers each start and
    take an action. *)
Definition busy_schedule : list tid :=
  (repeat Main 9 ++ [Worker 0; Worker 0; Worker 1; Worker 1; Worker 2; Worker 2])%list.

(** The caller runs up to its wait, worker 0 does all the work, the other
    two find the channel empty, and the caller returns last. *)
Definition orderly_schedule : list tid :=
  (repeat Main 8
   ++ [Worker 0; Worker 0; Worker 0; Worker 0; Worker 0; Worker 0; Worker 0]
   ++ [Worker 1; Worker 1; Worker 1; Worker 2; Worker 2; Worker 2]
   ++ [Main])%list.

(** The caller runs up to its wait, then worker 0 starts, takes the action
    and runs it. *)
Definition first_worker_schedule : list tid :=
  (repeat Main 7 ++ [Worker 0; Worker 0; Worker 0])%list.


(** ** What is read off a run: the log, the order of the calls, the results *)





Definition is_summary (l : logline) : bool :=
  match l with
  | LogPublished _ _ _ _ => true
  | _ => false
  end.

Definition is_resolve_error (l : logline) : bool :=
  match l with
  | LogResolveError _ _ _ => true
  | _ => false
  end.

(** The lines of lines 136 and 169 a state of [Publish] must have logged. *)
Definition expected_summary (orgID : Z) (event : string) (st : state) : list logline :=
  match main st with
  | Returned None =>
      [LogPublished event orgID (List.length (resolved st)) numWorkers]
  | _ => []
  end.

Definition expected_resolve_error (orgID : Z) (event : string) (st : state)
  : list logline :=
  match main st with
  | Returned (Some err) => [LogResolveError err orgID event]
  | _ => []
  end.

(** The [n]-th call begun is on the [n]-th resolved action. *)
Definition started_in_order (acts : list EventActionDetailsDTO) (pc : worker_pc)
  : Prop :=
  match pc with
  | WRunning a n => nth_error acts n = Some a
  | _ => True
  end.



Section RunFacts.

Variable E : Env.
Variable s : EventsService.
Variable rnd : nat -> string.
Variable eventName : string.
Variable eventPayload : value.

(** The recorded result of an action is what its call returned: the call was
    the [n]-th to begin, on the [n]-th resolved action. *)
Definition call_ok (acts : list EventActionDetailsDTO)
    (ar : EventActionDetailsDTO * result RunResponse) : Prop :=
  exists n,
    nth_error acts n = Some (fst ar) /\
    RunEventAction E s (rnd n) (fst ar) eventName eventPayload = Returns (snd ar).

(** What holds besides [Inv] after the store has answered [acts]. *)
Record Inv2 (acts : list EventActionDetailsDTO) (st : state) : Prop := {
  inv_fifo : exists taken,
      acts = (taken ++ jobs st ++ unsent st)%list /\
      List.length taken = calls st;
  inv_started : Forall (started_in_order acts) (workers st);
  inv_results : Forall (call_ok acts) (finished st);
  inv_panic : panicked st = None \/
              (panicked st = Some nil_call /\
               exists a, In a acts /\ ~ known_type E a)
}.

End RunFacts.

(** Actions that agree on what [createRunnerRequest] reads. *)
Definition same_for_runner (a b : EventActionDetailsDTO) : Prop :=
  Name a = Name b /\ ScriptLanguage a = ScriptLanguage b /\
  Script a = Script b /\ URL a = URL b /\ RunnerSecret a = RunnerSecret b.

(** Actions that agree on what [createWebhookRequest] reads. *)
Definition same_for_webhook (a b : EventActionDetailsDTO) : Prop :=
  OrgId a = OrgId b /\ URL a = URL b.

(** The request [createRunnerRequest] builds when nothing fails. *)
Definition runner_request (boundary u : string) (j : json)
    (action : EventActionDetailsDTO) : http.Request :=
  {| http.Method := "POST";
     http.URL := u;
     http.Header :=
       [("Authorization", "Bearer " ++ RunnerSecret action);
        ("Content-Type", "multipart/form-data; boundary=" ++ boundary)];
     http.Body := http.Form
       {| multipart.boundary := boundary;
          multipart.parts :=
            [{| multipart.PartHeader :=
                  [("Content-Disposition",
                    "form-data; name=" ++ quoted "file1"
                      ++ "; filename=" ++ quoted "file1");
                   ("Content-Type", "application/octet-stream")];
                multipart.PartData := Script action |};
             {| multipart.PartHeader :=
                  [("Content-Disposition", "form-data; name=" ++ quoted "metadata");
                   ("Content-Type", "application/json")];
                multipart.PartData :=
                  encode (JObj [("name", JStr (Name action));
                                ("lang", JStr (ScriptLanguage action));
                                ("entrypoint", JStr "file1")]) |};
             {| multipart.PartHeader :=
                  [("Content-Disposition", "form-data; name=" ++ quoted "event");
                   ("Content-Type", "application/json")];
                multipart.PartData := encode j |}];
          multipart.lastpart := false;
          multipart.closed := true |} |}.

(** The request [createWebhookRequest] builds when nothing fails. *)
Definition webhook_request (eventName : string) (j : json)
    (action : EventActionDetailsDTO) : http.Request :=
  {| http.Method := "POST";
     http.URL := URL action;
     http.Header := [("Content-Type", "application/json")];
     http.Body := http.Bytes
       (encode (JObj [("eventName", JStr eventName);
                      ("orgId", JNum (OrgId action));
                      ("payload", j)])) |}.

(** A client that answers one URL and refuses the others. *)
Definition picky_service (url : string) : EventsService :=
  {| actions := {| RetrieveEventActionsByRegisteredEvent := fun _ _ => Ok [] |};
     client := {| Do := fun req =>
                   if String.eqb (http.URL req) url then
                     Ok {| http.StatusCode := 204; http.ResponseBody := Ok "" |}
                   else Err (ErrNew "no route to host") |} |}.

(** A service whose endpoints answer but whose bodies break off. *)
Definition truncating_service (answer : result (list EventActionDetailsDTO))
  : EventsService :=
  {| actions := {| RetrieveEventActionsByRegisteredEvent := fun _ _ => answer |};
     client := {| Do := fun _ =>
                   Ok {| http.StatusCode := 200;
                         http.ResponseBody := Err (ErrNew "unexpected EOF") |} |} |}.

(** An action with a script, of organisation 7. *)
Definition runner_B7 : EventActionDetailsDTO :=
  {| OrgId := 7; Name := "B"; Type_ := "other"; URL := "http://r";
     Script := "print(1)"; ScriptLanguage := "python"; RunnerSecret := "s3cret" |}.

(** *** Marshal followed by Unmarshal is the identity on documents *)

Lemma encode_JArr l : encode (JArr l) = String "[" (encode_elems l).
Proof. reflexivity. Qed.

Lemma encode_JObj fs : encode (JObj fs) = String "{" (encode_members fs).
Proof. reflexivity. Qed.

Lemma append_assoc (a b c : string) : (a ++ b) ++ c = a ++ (b ++ c).
Proof. induction a as [|x a IH]; simpl; [reflexivity | now rewrite IH]. Qed.

Lemma unescape_escape_char c t :
  unescape (escape_char c ++ t) = prepend (String c "") (unescape t).
Proof.
  destruct c as [[|] [|] [|] [|] [|] [|] [|] [|]]; reflexivity.
Qed.

Lemma unescape_escape s rest :
  unescape (escape s ++ String dquote rest) = Some (s, rest).
Proof.
  induction s as [|c s IH]; simpl.
  - reflexivity.
  - rewrite append_assoc, unescape_escape_char, IH. reflexivity.
Qed.

Lemma unescape_quote s rest :
  exists t, quote s ++ rest = String dquote t /\ unescape t = Some (s, rest).
Proof.
  exists (escape s ++ String dquote rest). split.
  - unfold quote. simpl. now rewrite append_assoc.
  - apply unescape_escape.
Qed.

Lemma read_digits_digits d rest :
  no_digit_ahead rest -> read_digits (digits d ++ rest) = (d, rest).
Proof.
  intros Hrest. induction d; simpl; try (rewrite IHd; reflexivity).
  destruct rest as [|c r]; simpl in *; [reflexivity | now rewrite Hrest].
Qed.

Lemma digits_nonnil d rest :
  d <> Decimal.Nil ->
  exists c r, digits d ++ rest = String c r /\ digit_of c <> None.
Proof.
  destruct d; intros Hd; try congruence; simpl; eexists _, _; split;
    try reflexivity; discriminate.
Qed.

Lemma read_number_itoa n rest :
  no_digit_ahead rest -> read_number (itoa n ++ rest) = Some (n, rest).
Proof.
  intros Hrest. unfold itoa.
  destruct n as [|p|p]; simpl Z.to_int; cbv iota.
  - simpl. destruct rest as [|c r]; simpl in *; [reflexivity | now rewrite Hrest].
  - pose proof (Unsigned.to_uint_nonnil p) as Hnn.
    pose proof (DecimalZ.of_to (Zpos p)) as Hz. simpl Z.to_int in Hz.
    destruct (digits_nonnil _ rest Hnn) as (c & r & Heq & Hc).
    unfold read_number. rewrite Heq.
    assert (Hm : (N_of_ascii c =? 45)%N = false).
    { destruct (N.eqb_spec (N_of_ascii c) 45) as [E|]; [|reflexivity].
      exfalso. apply Hc. unfold digit_of. rewrite E. reflexivity. }
    rewrite Hm, <- Heq, read_digits_digits by assumption.
    destruct (Pos.to_uint p); [congruence | | | | | | | | | | ]; now rewrite Hz.
  - pose proof (Unsigned.to_uint_nonnil p) as Hnn.
    pose proof (DecimalZ.of_to (Zneg p)) as Hz. simpl Z.to_int in Hz.
    change (String "-" (digits (Pos.to_uint p)) ++ rest)
      with (String "-" (digits (Pos.to_uint p) ++ rest)).
    unfold read_number. change (N_of_ascii "-" =? 45)%N with true. cbv iota.
    rewrite read_digits_digits by assumption.
    destruct (Pos.to_uint p); [congruence | | | | | | | | | | ]; now rewrite Hz.
Qed.

Lemma append_nil_r (s : string) : s ++ "" = s.
Proof. induction s as [|c s IH]; simpl; [reflexivity | now rewrite IH]. Qed.

Lemma string_length_app (a b : string) :
  String.length (a ++ b) = String.length a + String.length b.
Proof. induction a as [|c a IH]; simpl; [reflexivity | now rewrite IH]. Qed.

Lemma digit_not_bracket c : digit_of c <> None -> Ascii.eqb "]" c = false.
Proof.
  intros Hc. destruct (Ascii.eqb_spec "]" c) as [<-|]; [|reflexivity].
  exfalso. now apply Hc.
Qed.

Lemma encode_not_close x t : strip "]" (encode x ++ t) = None.
Proof.
  destruct x as [|[|]|n|s|l|fs]; try reflexivity.
  simpl encode. unfold itoa. destruct n as [|p|p]; simpl Z.to_int; cbv iota;
    try reflexivity.
  destruct (digits_nonnil _ t (Unsigned.to_uint_nonnil p)) as (c & r & -> & Hc).
  cbn [strip]. now rewrite (digit_not_bracket c Hc).
Qed.

Lemma decode_elems_encode l :
  l <> [] -> Forall decodes l ->
  forall fuel rest, list_sum (map (fun x => S (weight x)) l) <= fuel ->
    decode_elems fuel (encode_elems l ++ rest) = Some (l, rest).
Proof.
  induction l as [|x l IH]; [congruence|].
  intros _ Hall fuel rest Hf.
  inversion Hall as [|? ? Hx Hl]; subst.
  destruct fuel as [|f]; [simpl in Hf; lia|].
  destruct l as [|y l].
  - change (encode_elems [x]) with (encode x ++ "]").
    rewrite append_assoc. change ("]" ++ rest) with (String "]" rest).
    simpl in Hf. cbn [decode_elems].
    rewrite (Hx f (String "]" rest)) by (simpl; try reflexivity; lia).
    reflexivity.
  - change (encode_elems (x :: y :: l))
      with (encode x ++ String "," (encode_elems (y :: l))).
    rewrite append_assoc.
    change (String "," (encode_elems (y :: l)) ++ rest)
      with (String "," (encode_elems (y :: l) ++ rest)).
    cbn [decode_elems].
    change (list_sum (map (fun x => S (weight x)) (x :: y :: l)))
      with (S (weight x) + list_sum (map (fun x => S (weight x)) (y :: l))) in Hf.
    rewrite (Hx f) by (simpl; try reflexivity; lia).
    change (N_of_ascii "," =? 93)%N with false.
    change (N_of_ascii "," =? 44)%N with true. cbv iota.
    rewrite (IH ltac:(discriminate) Hl f rest) by lia.
    reflexivity.
Qed.

Lemma decode_members_encode fs :
  fs <> [] -> Forall (fun kv => decodes (snd kv)) fs ->
  forall fuel rest, list_sum (map (fun kv => S (weight (snd kv))) fs) <= fuel ->
    decode_members fuel (encode_members fs ++ rest) = Some (fs, rest).
Proof.
  induction fs as [|[k x] fs IH]; [congruence|].
  intros _ Hall fuel rest Hf.
  inversion Hall as [|? ? Hx Hl]; subst. simpl in Hx.
  destruct fuel as [|f]; [simpl in Hf; lia|].
  destruct fs as [|kv fs].
  - change (encode_members [(k, x)]) with (quote k ++ String ":" (encode x ++ "}")).
    rewrite append_assoc.
    destruct (unescape_quote k (String ":" (encode x ++ "}") ++ rest))
      as (t & -> & Ht).
    cbn [decode_members]. change (N_of_ascii dquote =? 34)%N with true. cbv iota.
    rewrite Ht.
    change (String ":" (encode x ++ "}") ++ rest)
      with (String ":" ((encode x ++ "}") ++ rest)).
    cbv iota beta. change (N_of_ascii ":" =? 58)%N with true. cbv iota.
    rewrite append_assoc. change ("}" ++ rest) with (String "}" rest).
    simpl in Hf.
    rewrite (Hx f) by (simpl; try reflexivity; lia).
    reflexivity.
  - change (encode_members ((k, x) :: kv :: fs))
      with (quote k ++ String ":" (encode x ++ String "," (encode_members (kv :: fs)))).
    rewrite append_assoc.
    destruct (unescape_quote k
                (String ":" (encode x ++ String "," (encode_members (kv :: fs))) ++ rest))
      as (t & -> & Ht).
    cbn [decode_members]. change (N_of_ascii dquote =? 34)%N with true. cbv iota.
    rewrite Ht.
    change (String ":" (encode x ++ String "," (encode_members (kv :: fs))) ++ rest)
      with (String ":" ((encode x ++ String "," (encode_members (kv :: fs))) ++ rest)).
    cbv iota beta. change (N_of_ascii ":" =? 58)%N with true. cbv iota.
    rewrite append_assoc.
    change (String "," (encode_members (kv :: fs)) ++ rest)
      with (String "," (encode_members (kv :: fs) ++ rest)).
    change (list_sum (map (fun kv => S (weight (snd kv))) ((k, x) :: kv :: fs)))
      with (S (weight x) + list_sum (map (fun kv => S (weight (snd kv))) (kv :: fs))) in Hf.
    rewrite (Hx f) by (simpl; try reflexivity; lia).
    change (N_of_ascii "," =? 125)%N with false.
    change (N_of_ascii "," =? 44)%N with true. cbv iota.
    rewrite (IH ltac:(discriminate) Hl f rest) by lia.
    reflexivity.
Qed.

Lemma decode_encode j : decodes j.
Proof.
  induction j as [|b|n|s|l IH|fs IH] using json_nested_ind;
    intros fuel rest Hf Hrest;
    (destruct fuel as [|f]; [simpl in Hf; lia|]).
  - reflexivity.
  - destruct b; reflexivity.
  - cbn [decode_value encode]. now rewrite read_number_itoa.
  - destruct (unescape_quote s rest) as (t & Heq & Ht).
    cbn [encode]. rewrite Heq. cbn [decode_value].
    change (read_number (String dquote t)) with (@None (Z * string)).
    cbv iota. change (N_of_ascii dquote) with 34%N. cbv iota beta zeta.
    simpl N.eqb. cbv iota. now rewrite Ht.
  - rewrite encode_JArr.
    change (String "[" (encode_elems l) ++ rest)
      with (String "[" (encode_elems l ++ rest)).
    cbn [decode_value].
    change (read_number (String "[" (encode_elems l ++ rest))) with (@None (Z * string)).
    cbv iota. change (N_of_ascii "[") with 91%N. cbv iota beta zeta.
    simpl N.eqb. cbv iota.
    destruct l as [|x l]; [reflexivity|].
    assert (Hs : strip "]" (encode_elems (x :: l) ++ rest) = None).
    { destruct l as [|y l].
      - change (encode_elems [x]) with (encode x ++ "]").
        rewrite append_assoc. apply encode_not_close.
      - change (encode_elems (x :: y :: l))
          with (encode x ++ String "," (encode_elems (y :: l))).
        rewrite append_assoc. apply encode_not_close. }
    rewrite Hs.
    assert (Hne : x :: l <> []) by discriminate.
    rewrite (decode_elems_encode _ Hne IH f rest); [reflexivity|].
    cbn [weight] in Hf. lia.
  - rewrite encode_JObj.
    change (String "{" (encode_members fs) ++ rest)
      with (String "{" (encode_members fs ++ rest)).
    cbn [decode_value].
    change (read_number (String "{" (encode_members fs ++ rest))) with (@None (Z * string)).
    cbv iota. change (N_of_ascii "{") with 123%N. cbv iota beta zeta.
    simpl N.eqb. cbv iota.
    destruct fs as [|[k x] fs]; [reflexivity|].
    assert (Hs : strip "}" (encode_members ((k, x) :: fs) ++ rest) = None).
    { destruct fs as [|kv fs].
      - change (encode_members [(k, x)])
          with (quote k ++ String ":" (encode x ++ "}")).
        reflexivity.
      - change (encode_members ((k, x) :: kv :: fs))
          with (quote k ++ String ":" (encode x ++ String "," (encode_members (kv :: fs)))).
        reflexivity. }
    rewrite Hs.
    assert (Hne : (k, x) :: fs <> []) by discriminate.
    rewrite (decode_members_encode _ Hne IH f rest); [reflexivity|].
    cbn [weight] in Hf. lia.
Qed.

Lemma itoa_nonempty n : 1 <= String.length (itoa n).
Proof.
  unfold itoa. destruct n as [|p|p]; simpl; try lia.
  destruct (digits_nonnil _ "" (Unsigned.to_uint_nonnil p)) as (c & r & Heq & _).
  rewrite append_nil_r in Heq. rewrite Heq. simpl. lia.
Qed.

Lemma weight_le_length j : weight j <= String.length (encode j).
Proof.
  induction j as [|b|n|s|l IH|fs IH] using json_nested_ind.
  - simpl. lia.
  - destruct b; simpl; lia.
  - simpl. apply itoa_nonempty.
  - simpl. lia.
  - rewrite encode_JArr. cbn [weight String.length]. apply le_n_S.
    induction IH as [|x l Hx Hl IHl]; [simpl; lia|].
    destruct l as [|y l].
    + change (encode_elems [x]) with (encode x ++ "]").
      rewrite string_length_app. simpl. lia.
    + change (encode_elems (x :: y :: l))
        with (encode x ++ String "," (encode_elems (y :: l))).
      rewrite string_length_app.
      change (list_sum (map (fun x => S (weight x)) (x :: y :: l)))
        with (S (weight x) + list_sum (map (fun x => S (weight x)) (y :: l))).
      cbn [String.length]. lia.
  - rewrite encode_JObj. cbn [weight String.length]. apply le_n_S.
    induction IH as [|[k x] fs Hx Hl IHl]; [simpl; lia|].
    simpl in Hx. destruct fs as [|kv fs].
    + change (encode_members [(k, x)]) with (quote k ++ String ":" (encode x ++ "}")).
      rewrite string_length_app. cbn [String.length]. rewrite string_length_app. simpl. lia.
    + change (encode_members ((k, x) :: kv :: fs))
        with (quote k ++ String ":" (encode x ++ String "," (encode_members (kv :: fs)))).
      rewrite string_length_app. cbn [String.length]. rewrite string_length_app.
      change (list_sum (map (fun kv => S (weight (snd kv))) ((k, x) :: kv :: fs)))
        with (S (weight x) + list_sum (map (fun kv => S (weight (snd kv))) (kv :: fs))).
      cbn [String.length snd]. lia.
Qed.

(** Unmarshal reads back the document Marshal wrote. *)
Lemma Unmarshal_encode j : json_Unmarshal (encode j) = Some j.
Proof.
  unfold json_Unmarshal.
  pose proof (decode_encode j (S (String.length (encode j))) "") as H.
  rewrite append_nil_r in H. rewrite H; [reflexivity | | exact I].
  pose proof (weight_le_length j). lia.
Qed.

Lemma Unmarshal_Marshal v text :
  json_Marshal v = Ok text ->
  exists j, to_json v = Ok j /\ json_Unmarshal text = Some j.
Proof.
  unfold json_Marshal. destruct (to_json v) as [j|e]; simpl; [|discriminate].
  intros [= <-]. exists j. split; [reflexivity | apply Unmarshal_encode].
Qed.

(** ** The request builders *)

Lemma bind_Ok {A B : Type} (r : result A) (k : A -> result B) (b : B) :
  bind r k = Ok b -> exists a, r = Ok a /\ k a = Ok b.
Proof. destruct r as [a|e]; simpl; [eauto | discriminate]. Qed.

Lemma wrap_Ok {A : Type} (msg : string) (r : result A) (a : A) :
  wrap msg r = Ok a -> r = Ok a.
Proof. destruct r; simpl; congruence. Qed.

Lemma Marshal_Ok v text :
  json_Marshal v = Ok text -> exists j, to_json v = Ok j /\ text = encode j.
Proof.
  unfold json_Marshal. intros H. apply bind_Ok in H as (j & Hj & [= <-]). eauto.
Qed.

Lemma to_json_PublishEvent ev org payload j :
  to_json payload = Ok j ->
  to_json (PublishEvent_value
             {| EventName := ev; PublishOrgId := org; Payload := payload |})
  = Ok (JObj [("eventName", JStr ev); ("orgId", JNum org); ("payload", j)]).
Proof. intros H. cbn. rewrite H. reflexivity. Qed.

(** What a successful [createWebhookRequest] has built. *)
Lemma createWebhookRequest_Ok E ev payload a req :
  createWebhookRequest E ev payload a = Ok req ->
  exists j,
    to_json payload = Ok j /\
    url_Parse_ok E (URL a) = true /\
    req = {| http.Method := "POST";
             http.URL := URL a;
             http.Header := [("Content-Type", "application/json")];
             http.Body := http.Bytes
               (encode (JObj [("eventName", JStr ev);
                              ("orgId", JNum (OrgId a));
                              ("payload", j)])) |}.
Proof.
  unfold createWebhookRequest. intros H.
  apply bind_Ok in H as (body & Hbody & H).
  apply wrap_Ok, Marshal_Ok in Hbody as (doc & Hdoc & ->).
  apply bind_Ok in H as (r & Hr & [= <-]).
  apply wrap_Ok in Hr. unfold http_NewRequest in Hr.
  destruct (url_Parse_ok E (URL a)) eqn:Hurl; [|discriminate].
  injection Hr as <-.
  destruct (to_json payload) as [j|e] eqn:Hj.
  - rewrite (to_json_PublishEvent _ _ _ _ Hj) in Hdoc. injection Hdoc as <-.
    exists j. repeat split; reflexivity.
  - cbn in Hdoc. rewrite Hj in Hdoc. discriminate.
Qed.





(** C10.  The request [createWebhookRequest] builds has one header,
    [Content-Type: application/json], and so no [Authorization]; and the
    builder does not read the runner secret: changing it changes nothing. *)
Theorem webhook_request_single_header E eventName payload action req :
  createWebhookRequest E eventName payload action = Ok req ->
  http.Header req = [("Content-Type", "application/json")] /\
  Header_Get (http.Header req) "Authorization" = None /\
  (forall secret,
      createWebhookRequest E eventName payload (with_secret secret action)
      = Ok req).
Proof.
  intros H. destruct (createWebhookRequest_Ok _ _ _ _ _ H) as (j & Hj & Hurl & ->).
  repeat split. intros secret. rewrite <- H. reflexivity.
Qed.

Lemma webhook_request_single_header_witness :
  exists req,
    createWebhookRequest demo_env "user.created" demo_payload
      (with_secret "s3cret" hook_A) = Ok req /\
    http.Header req = [("Content-Type", "application/json")] /\
    Header_Get (http.Header req) "Authorization" = None /\
    (forall secret,
        createWebhookRequest demo_env "user.created" demo_payload
          (with_secret secret (with_secret "s3cret" hook_A)) = Ok req).
Proof.
  eexists. split; [reflexivity|].
  apply (webhook_request_single_header demo_env "user.created" demo_payload
           (with_secret "s3cret" hook_A)).
  reflexivity.
Defined.

Lemma to_json_runnerMetadata n l e :
  to_json (runnerMetadata_value {| MetaName := n; Lang := l; Entry := e |})
  = Ok (JObj [("name", JStr n); ("lang", JStr l); ("entrypoint", JStr e)]).
Proof. reflexivity. Qed.




(** C9.  [createRunnerRequest] does not read the event name: with the same
    boundary, payload and action, two event names give the same result, and
    so does the whole of [RunEventAction] on an action of type code. *)
Theorem runner_request_ignores_event_name E s boundary e1 e2 payload action :
  createRunnerRequest E boundary e1 payload action
  = createRunnerRequest E boundary e2 payload action /\
  (Type_ action = ActionTypeCode E ->
   RunEventAction E s boundary action e1 payload
   = RunEventAction E s boundary action e2 payload).
Proof.
  split; [reflexivity|].
  intros Ht. unfold RunEventAction, selectCreateRequest.
  rewrite Ht, String.eqb_refl. reflexivity.
Qed.

Lemma runner_request_ignores_event_name_witness :
  createRunnerRequest demo_env "b0undary" "user.created" demo_payload runner_B
  = createRunnerRequest demo_env "b0undary" "user.deleted" demo_payload runner_B /\
  (Type_ runner_B = ActionTypeCode demo_env ->
   RunEventAction demo_env (demo_service (Ok [runner_B]) 200 "ok") "b0undary"
     runner_B "user.created" demo_payload
   = RunEventAction demo_env (demo_service (Ok [runner_B]) 200 "ok") "b0undary"
       runner_B "user.deleted" demo_payload).
Proof.
  apply (runner_request_ignores_event_name demo_env
           (demo_service (Ok [runner_B]) 200 "ok") "b0undary"
           "user.created" "user.deleted" demo_payload runner_B).
Defined.

(** ** The executor *)

(** C5.  When the request is built, the client answers and the body of the
    answer reads to its end, [RunEventAction] returns the status code and the
    body, with no error, whatever the status code is. *)
Theorem RunEventAction_returns_response
    E s boundary action eventName payload createRequest req response body :
  selectCreateRequest E boundary action = Some createRequest ->
  createRequest eventName payload action = Ok req ->
  Do (client s) req = Ok response ->
  http.ResponseBody response = Ok body ->
  RunEventAction E s boundary action eventName payload
  = Returns (Ok {| Code := http.StatusCode response; Body := body |}).
Proof.
  intros Hsel Hreq Hdo Hbody. unfold RunEventAction.
  rewrite Hsel, Hreq. cbn [wrap bind]. rewrite Hdo. cbn [wrap bind].
  rewrite Hbody. reflexivity.
Qed.

Lemma RunEventAction_returns_response_witness :
  RunEventAction demo_env (demo_service (Ok [hook_A]) 503 "unavailable")
    "b0undary" hook_A "user.created" demo_payload
  = Returns (Ok {| Code := 503; Body := "unavailable" |}).
Proof.
  apply (RunEventAction_returns_response demo_env
           (demo_service (Ok [hook_A]) 503 "unavailable") "b0undary" hook_A
           "user.created" demo_payload (createWebhookRequest demo_env)
           {| http.Method := "POST"; http.URL := "http://h/hook";
              http.Header := [("Content-Type", "application/json")];
              http.Body := http.Bytes
                (encode (JObj [("eventName", JStr "user.created");
                               ("orgId", JNum 1);
                               ("payload", JObj [("id", JNum 42)])])) |}
           {| http.StatusCode := 503; http.ResponseBody := Ok "unavailable" |}
           "unavailable"); reflexivity.
Defined.

Lemma selectCreateRequest_unknown E boundary action :
  Type_ action <> ActionTypeCode E ->
  Type_ action <> ActionTypeWebhook E ->
  selectCreateRequest E boundary action = None.
Proof.
  intros Hc Hw. unfold selectCreateRequest.
  apply String.eqb_neq in Hc, Hw. now rewrite Hc, Hw.
Qed.

Lemma selectCreateRequest_known E boundary action :
  known_type E action ->
  exists create, selectCreateRequest E boundary action = Some create.
Proof.
  unfold selectCreateRequest. intros [H|H]; rewrite H.
  - rewrite String.eqb_refl. eauto.
  - rewrite String.eqb_refl. destruct (String.eqb _ _); eauto.
Qed.

Lemma RunEventAction_known E s boundary action eventName payload :
  known_type E action ->
  exists r, RunEventAction E s boundary action eventName payload = Returns r.
Proof.
  intros H. destruct (selectCreateRequest_known E boundary action H) as (c & Hc).
  unfold RunEventAction. rewrite Hc. eauto.
Qed.

(** C2, on the code.  For an action whose type is neither constant,
    [RunEventAction] calls a nil function: it panics and returns nothing, no
    error either.  In [Publish] the panic of the worker that runs the action
    ends the process, and no goroutine steps after it. *)
Theorem RunEventAction_unknown_type_panics E s boundary action eventName payload :
  Type_ action <> ActionTypeCode E ->
  Type_ action <> ActionTypeWebhook E ->
  RunEventAction E s boundary action eventName payload = Panics nil_call /\
  (forall r, RunEventAction E s boundary action eventName payload <> Returns r) /\
  (forall rnd orgID st i n,
      panicked st = None ->
      nth_error (workers st) i = Some (WRunning action n) ->
      step E s rnd orgID eventName payload (Worker i) st
      = Some (panic nil_call st) /\
      forall t, step E s rnd orgID eventName payload t (panic nil_call st) = None).
Proof.
  intros Hc Hw.
  assert (Hp : forall b, RunEventAction E s b action eventName payload
                         = Panics nil_call).
  { intros b. unfold RunEventAction.
    now rewrite (selectCreateRequest_unknown E b action Hc Hw). }
  split; [apply Hp|]. split.
  - intros r. rewrite Hp. discriminate.
  - intros rnd orgID st i n Hnp Hnth. split.
    + unfold step, worker_step. rewrite Hnp, Hnth, Hp. reflexivity.
    + intros t. reflexivity.
Qed.

(** ** The dispatcher *)

Lemma set_nth_app {A : Type} (l1 l2 : list A) (x y : A) :
  set_nth (List.length l1) y (l1 ++ x :: l2) = (l1 ++ y :: l2)%list.
Proof. induction l1 as [|z l1 IH]; simpl; [reflexivity | now rewrite IH]. Qed.

Lemma nth_error_decompose {A : Type} (l : list A) (i : nat) (x : A) :
  nth_error l i = Some x ->
  exists l1 l2, l = (l1 ++ x :: l2)%list /\
                forall y, set_nth i y l = (l1 ++ y :: l2)%list.
Proof.
  intros H. destruct (nth_error_split l i H) as (l1 & l2 & -> & <-).
  exists l1, l2. split; [reflexivity|]. intros y. apply set_nth_app.
Qed.


Lemma exec_app E s rnd orgID ev p (a b : list tid) (st : state) :
  exec E s rnd orgID ev p (a ++ b) st
  = match exec E s rnd orgID ev p a st with
    | Some st' => exec E s rnd orgID ev p b st'
    | None => None
    end.
Proof.
  revert st. induction a as [|t a IH]; intros st; simpl; [reflexivity|].
  destruct (step E s rnd orgID ev p t st); [apply IH | reflexivity].
Qed.

Lemma exec_snoc E s rnd orgID ev p (a : list tid) (t : tid) (st st' : state) :
  exec E s rnd orgID ev p (a ++ [t]) st = Some st' ->
  exists mid, exec E s rnd orgID ev p a st = Some mid /\
              step E s rnd orgID ev p t mid = Some st'.
Proof.
  rewrite exec_app. destruct (exec E s rnd orgID ev p a st) as [mid|];
    [|discriminate].
  simpl. destruct (step E s rnd orgID ev p t mid) as [x|] eqn:Hs; [|discriminate].
  intros [= <-]. eauto.
Qed.

(** An invariant of the steps holds of every state a schedule reaches. *)
Lemma exec_invariant E s rnd orgID ev p (P : state -> Prop) :
  (forall t st st', P st -> step E s rnd orgID ev p t st = Some st' -> P st') ->
  forall sched st st', P st -> exec E s rnd orgID ev p sched st = Some st' -> P st'.
Proof.
  intros Hstep sched. induction sched as [|t sched IH]; intros st st' HP; simpl.
  - now intros [= <-].
  - destruct (step E s rnd orgID ev p t st) as [mid|] eqn:Hs; [|discriminate].
    apply IH. eapply Hstep; eauto.
Qed.

Ltac state_simpl :=
  cbn [main resolved wg jobs jobs_cap jobs_closed workers calls finished log
       panicked set_main set_resolved set_wg set_jobs close_jobs set_workers
       set_calls add_finished add_log panic set_worker unsent in_progress
       sending_done] in *.

Ltac unfold_step := unfold step, Publish_step, worker_step in *.

Ltac unfold_exec := cbn [exec]; unfold step, Publish_step.


Ltac pool_case :=
  match goal with
  | HP : context [main ?st] |- context [main ?st] =>
      destruct (main st) as [|?w|?rest| |[?e|]];
      rewrite ?length_app in *; cbn [List.length] in *;
      first [ exact HP
            | match type of HP with
              | (?l ++ _ :: _)%list = [] => destruct l; discriminate HP
              end ]
  end.

(** The cases of a step: what the stepping goroutine was about to do. *)
Ltac step_cases H :=
  unfold step in H;
  match type of H with
  | match panicked ?st with _ => _ end = _ =>
      let Hp := fresh "Hnp" in
      destruct (panicked st) eqn:Hp; [discriminate H|]
  end;
  match type of H with
  | match ?t with Main => _ | Worker _ => _ end = _ =>
      destruct t as [|?i]
  end;
  [ unfold Publish_step in H;
    match type of H with
    | match main ?st with _ => _ end = _ =>
        let Hm := fresh "Hmain" in
        destruct (main st) as [|?w|[|?a ?rest]| |?err] eqn:Hm
    end
  | unfold worker_step in H;
    match type of H with
    | match nth_error (workers ?st) ?i with _ => _ end = _ =>
        let Hn := fresh "Hnth" in
        destruct (nth_error (workers st) i) as [[| |?a ?n| |]|] eqn:Hn
    end ].

Section PublishProofs.

Variable E : Env.
Variable s : EventsService.
Variable rnd : nat -> string.
Variable orgID : Z.
Variable eventName : string.
Variable eventPayload : value.

Local Abbreviation step := (step E s rnd orgID eventName eventPayload).
Local Abbreviation exec := (exec E s rnd orgID eventName eventPayload).
Local Abbreviation answer :=
  (RetrieveEventActionsByRegisteredEvent (actions s) orgID eventName).
Local Abbreviation Run n a := (RunEventAction E s (rnd n) a eventName eventPayload).




Lemma step_pool_ok t st st' :
  pool_ok st -> step t st = Some st' -> pool_ok st'.
Proof.
  unfold pool_ok. intros HP H.
  step_cases H; try discriminate;
    try (destruct (nth_error_decompose _ _ _ Hnth) as (l1 & l2 & Hw & Hset);
         rewrite Hw in HP).
  - destruct answer as [l|e]; injection H as <-; state_simpl;
      [split; [now rewrite HP | unfold numWorkers; lia] | assumption].
  - destruct HP as [Hl Hle].
    destruct (Nat.ltb_spec w numWorkers); injection H as <-; state_simpl.
    + rewrite length_app. cbn [List.length]. lia.
    + destruct (resolved st); lia.
  - injection H as <-; state_simpl. exact HP.
  - destruct (Nat.ltb _ _); [|discriminate].
    injection H as <-; state_simpl. destruct rest; exact HP.
  - destruct (wg st =? 0)%Z; [|discriminate]. injection H as <-; state_simpl.
    exact HP.
  - injection H as <-; state_simpl. rewrite Hset. pool_case.
  - destruct (jobs st) as [|a q].
    + destruct (jobs_closed st); [|discriminate]. injection H as <-; state_simpl.
      rewrite Hset. pool_case.
    + injection H as <-; state_simpl. rewrite Hset. pool_case.
  - destruct (Run n a) as [[r|e]|msg]; injection H as <-; state_simpl;
      rewrite ?Hset, ?Hw; pool_case.
  - destruct (wg st - 1 <? 0)%Z; injection H as <-; state_simpl;
      rewrite ?Hset, ?Hw; pool_case.
Qed.

Lemma reachable_pool_ok sched st :
  exec sched init = Some st -> pool_ok st.
Proof.
  apply (exec_invariant E s rnd orgID eventName eventPayload pool_ok).
  - intros t a b. apply step_pool_ok.
  - reflexivity.
Qed.

Lemma pool_size st : pool_ok st -> List.length (workers st) <= numWorkers.
Proof.
  unfold pool_ok.
  destruct (main st) as [|w|rest| |[e|]]; intros H; try rewrite H; try lia;
    simpl; lia.
Qed.

Lemma in_flight_le_pool st : in_flight st <= List.length (workers st).
Proof. unfold in_flight. apply filter_length_le. Qed.

Lemma perm_send {A : Type} (a : A) (rest J X : list A) :
  Permutation ((a :: rest) ++ J ++ X) (rest ++ (J ++ [a]) ++ X).
Proof.
  rewrite <- !app_assoc. cbn [app].
  rewrite (app_assoc rest J X), (app_assoc rest J (a :: X)).
  apply (Permutation_middle (rest ++ J) X a).
Qed.

Lemma perm_receive {A : Type} (a : A) (U q P1 P2 F : list A) :
  Permutation (U ++ (a :: q) ++ (P1 ++ P2) ++ F)
              (U ++ q ++ (P1 ++ a :: P2) ++ F).
Proof.
  apply Permutation_app_head. rewrite <- !app_assoc. cbn [app].
  rewrite (app_assoc q P1 (P2 ++ F)), (app_assoc q P1 (a :: P2 ++ F)).
  apply (Permutation_middle (q ++ P1) (P2 ++ F) a).
Qed.

Lemma perm_finish {A : Type} (a : A) (U J P1 P2 F : list A) :
  Permutation (U ++ J ++ (P1 ++ a :: P2) ++ F)
              (U ++ J ++ (P1 ++ P2) ++ F ++ [a]).
Proof.
  do 2 apply Permutation_app_head. rewrite <- !app_assoc. cbn [app].
  apply Permutation_app_head. rewrite app_assoc. apply Permutation_cons_append.
Qed.

Ltac workers_simpl :=
  unfold unsent, in_progress in *; state_simpl;
  repeat match goal with
         | H : forall y, set_nth _ y _ = _ |- _ => rewrite H
         | H : workers _ = _ |- _ => rewrite H
         | H : jobs _ = _ |- _ => rewrite H
         | H : jobs_closed _ = _ |- _ => rewrite H
         end;
  rewrite ?filter_app, ?flat_map_app, ?existsb_app, ?length_app, ?map_app in *;
  cbn [filter active flat_map running_action existsb gone List.length map fst
       app orb] in *;
  rewrite ?app_nil_r, ?orb_false_r, ?Nat.add_0_r in *.

Ltac inv_field :=
  match goal with
  | |- _ /\ _ => split; congruence
  | |- Permutation _ _ => assumption
  | Hperm : Permutation _ ?acts |- Permutation _ ?acts =>
      rewrite <- Hperm; symmetry;
      first [ apply perm_send | apply perm_receive | apply perm_finish ]
  | Hgone : _ = true -> _ /\ _ |- _ = true -> _ /\ _ =>
      first [ exact Hgone
            | let Hg := fresh in
              intros Hg; destruct (Hgone Hg); split; congruence ]
  | |- _ -> _ /\ _ => intros _; split; congruence
  | _ => assumption
  | _ => congruence
  | _ => lia
  end.

Lemma step_Inv acts t st st' :
  Inv acts st -> step t st = Some st' -> Inv acts st'.
Proof.
  intros [[Hm1 Hm2] [Hr Hcap] Hwg Hperm Hcl Hgone Hcalls] H.
  unfold unsent, in_progress in *.
  step_cases H; try discriminate; try congruence;
    try (destruct (nth_error_decompose _ _ _ Hnth) as (l1 & l2 & Hw & Hset);
         rewrite Hw in *).
  - (* spawn, or leave the loop *)
    destruct (Nat.ltb w numWorkers); injection H as <-;
      constructor; workers_simpl; inv_field.
  - (* close *)
    injection H as <-; constructor; workers_simpl; inv_field.
  - (* send *)
    destruct (Nat.ltb _ _); [|discriminate].
    injection H as <-; constructor; workers_simpl; inv_field.
  - (* wait *)
    destruct (wg st =? 0)%Z; [|discriminate].
    injection H as <-; constructor; workers_simpl; inv_field.
  - (* wg.Add *)
    injection H as <-; constructor; workers_simpl; inv_field.
  - (* receive *)
    destruct (jobs st) as [|a q] eqn:Hj.
    + destruct (jobs_closed st) eqn:Hclosed; [|discriminate].
      injection H as <-; constructor; workers_simpl; inv_field.
    + injection H as <-; constructor; workers_simpl; inv_field.
  - (* RunEventAction ends *)
    destruct (Run n a) as [[r|e]|msg]; injection H as <-;
      constructor; workers_simpl; inv_field.
  - (* wg.Done *)
    destruct (Z.ltb_spec (wg st - 1) 0); injection H as <-;
      constructor; workers_simpl; inv_field.
Qed.

Lemma init_steps t st :
  step t init = Some st -> t = Main /\ Publish_step s orgID eventName init = Some st.
Proof.
  destruct t as [|i]; cbn; [auto|].
  unfold worker_step. cbn. destruct i; discriminate.
Qed.

Lemma first_step_Inv acts t st :
  answer = Ok acts -> step t init = Some st -> Inv acts st.
Proof.
  intros Hans H. apply init_steps in H as [_ H].
  unfold Publish_step in H. cbn [main init] in H. rewrite Hans in H.
  injection H as <-. constructor; cbn; auto; try (split; congruence).
  - rewrite app_nil_r. reflexivity.
Qed.

(** After the store has answered, the invariant holds all along. *)
Lemma reachable_Inv acts sched st :
  answer = Ok acts -> exec sched init = Some st -> sched <> [] -> Inv acts st.
Proof.
  intros Hans H Hne. destruct sched as [|t sched]; [congruence|].
  simpl in H.
  destruct (step t init) as [st1|] eqn:H1; [|discriminate].
  revert H. apply (exec_invariant E s rnd orgID eventName eventPayload (Inv acts)).
  - intros t' a b. apply step_Inv.
  - eapply first_step_Inv; eauto.
Qed.




(** A worker that cannot step has exited, or waits on the open, empty
    channel. *)
Lemma worker_stuck st i pc :
  panicked st = None ->
  nth_error (workers st) i = Some pc ->
  step (Worker i) st = None ->
  pc = WExited \/ (pc = WReceive /\ jobs st = [] /\ jobs_closed st = false).
Proof.
  intros Hnp Hnth. unfold_step. rewrite Hnp, Hnth.
  destruct pc as [| |a n| |]; try discriminate; auto.
  - destruct (jobs st); [|discriminate].
    destruct (jobs_closed st); [discriminate|]. auto.
  - destruct (Run n a) as [[r|e]|msg]; discriminate.
  - destruct (wg st - 1 <? 0)%Z; discriminate.
Qed.

Lemma quiescent_workers st :
  panicked st = None -> jobs_closed st = true -> quiescent E s rnd orgID eventName eventPayload st ->
  Forall (fun pc => pc = WExited) (workers st).
Proof.
  intros Hnp Hcl Hq. apply Forall_forall. intros pc Hin.
  apply In_nth_error in Hin as (i & Hnth).
  destruct (worker_stuck st i pc Hnp Hnth (Hq (Worker i))) as [->|(_ & _ & Hc)];
    [reflexivity | congruence].
Qed.

Lemma exited_inactive ws :
  Forall (fun pc => pc = WExited) ws ->
  filter active ws = [] /\ flat_map running_action ws = [] /\
  (ws <> [] -> existsb gone ws = true).
Proof.
  induction 1 as [|pc ws -> _ (IH1 & IH2 & IH3)]; cbn.
  - repeat split; congruence.
  - repeat split; auto.
Qed.

(** When no goroutine can step and nothing has panicked, [Publish] has
    returned nil, the workers have exited, the channel is empty, and the
    actions that were run are the resolved ones, each once. *)
Lemma quiescent_done acts st :
  Inv acts st -> pool_ok st -> panicked st = None ->
  quiescent E s rnd orgID eventName eventPayload st ->
  main st = Returned None /\
  Forall (fun pc => pc = WExited) (workers st) /\
  jobs st = [] /\
  Permutation (map fst (finished st)) acts /\
  calls st = List.length acts.
Proof.
  intros HI HP Hnp Hq.
  pose proof (Hq Main) as Hm. unfold_step. rewrite Hnp in Hm.
  pose proof (inv_conserve _ _ HI) as Hperm.
  pose proof (inv_closed _ _ HI) as Hcl.
  pose proof (inv_wg _ _ HI) as Hwg.
  pose proof (inv_calls _ _ HI) as Hcalls.
  destruct (inv_main _ _ HI) as [Hm1 Hm2].
  destruct (inv_resolved _ _ HI) as [_ Hcap].
  unfold unsent, pool_ok in *.
  destruct (main st) as [|w|[|a rest]| |[e|]] eqn:Hmain; try discriminate;
    try congruence; cbn [sending_done] in Hcl.
  - destruct (Nat.ltb w numWorkers); discriminate.
  - (* a send never finds the channel full *)
    apply Permutation_length in Hperm. rewrite !length_app in Hperm.
    cbn [List.length] in Hperm.
    destruct (Nat.ltb_spec (List.length (jobs st)) (jobs_cap st)); [discriminate|lia].
  - (* at the wait, the counter is 0 once the workers have exited *)
    destruct (exited_inactive _ (quiescent_workers st Hnp Hcl Hq)) as (Ha & _ & _).
    rewrite Ha in Hwg. cbn in Hwg. rewrite Hwg in Hm. discriminate.
  - pose proof (quiescent_workers st Hnp Hcl Hq) as Hex.
    destruct (exited_inactive _ Hex) as (Ha & Hrun & Hg).
    assert (Hne : workers st <> []).
    { intros Hnil. rewrite Hnil in HP. discriminate. }
    destruct (inv_gone _ _ HI (Hg Hne)) as [Hj _].
    unfold in_progress in *. rewrite Hj, Hrun in Hperm. cbn [app] in Hperm.
    rewrite Hrun in Hcalls. cbn [List.length] in Hcalls.
    repeat split; auto.
    apply Permutation_length in Hperm. rewrite length_map in Hperm. lia.
Qed.






Lemma main_to_send acts :
  answer = Ok acts -> exec (repeat Main 5) init = Some (sending acts acts []).
Proof.
  intros Hans. cbn [repeat]. unfold_exec. cbn [panicked init main].
  rewrite Hans. reflexivity.
Qed.

Lemma send_loop acts rest : forall q,
  List.length q + List.length rest <= List.length acts ->
  exec (repeat Main (List.length rest)) (sending acts rest q)
  = Some (sending acts [] (q ++ rest)).
Proof.
  induction rest as [|a rest IH]; intros q Hlen; cbn [List.length repeat] in *.
  - rewrite app_nil_r. reflexivity.
  - unfold_exec. cbn [panicked main sending jobs jobs_cap].
    destruct (Nat.ltb_spec (List.length q) (List.length acts)); [|lia].
    change (set_main (AtSend rest) (set_jobs (q ++ [a]) (sending acts (a :: rest) q)))
      with (sending acts rest (q ++ [a])).
    rewrite IH by (rewrite length_app; cbn [List.length]; lia).
    now rewrite <- app_assoc.
Qed.

Lemma send_to_return acts :
  exec (repeat Main 2) (sending acts [] acts)
  = Some (returned_early orgID eventName acts).
Proof. reflexivity. Qed.

(** The caller's goroutine, run alone, goes all the way to its return. *)
Lemma main_alone acts :
  answer = Ok acts ->
  exec (repeat Main (List.length acts + 7)) init
  = Some (returned_early orgID eventName acts).
Proof.
  intros Hans.
  replace (List.length acts + 7) with (5 + (List.length acts + 2)) by lia.
  rewrite !repeat_app, exec_app, (main_to_send acts Hans), exec_app.
  rewrite (send_loop acts acts []) by (cbn; lia).
  apply send_to_return.
Qed.

Lemma init_not_quiescent :
  ~ quiescent E s rnd orgID eventName eventPayload init.
Proof.
  intros Hq. specialize (Hq Main). unfold_step. cbn in Hq.
  destruct answer; discriminate.
Qed.





End PublishProofs.

(** C8.  In every state a run of [Publish] reaches, under every schedule, at
    most 3 calls of [RunEventAction] are in flight: there are never more than
    [numWorkers] = 3 workers, and a worker runs one call at a time. *)
Theorem Publish_in_flight_bound E s rnd orgID eventName eventPayload sched st :
  exec E s rnd orgID eventName eventPayload sched init = Some st ->
  in_flight st <= 3 /\ List.length (workers st) <= 3.
Proof.
  intros H. apply reachable_pool_ok, pool_size in H. unfold numWorkers in H.
  pose proof (in_flight_le_pool st). lia.
Qed.

Lemma Publish_in_flight_bound_witness :
  exists st,
    exec demo_env (demo_service (Ok [hook_A; runner_B; hook_C]) 200 "ok")
      demo_rnd 1 "user.created" demo_payload busy_schedule init = Some st /\
    in_flight st = 3 /\
    (in_flight st <= 3 /\ List.length (workers st) <= 3).
Proof.
  eexists. split; [vm_compute; reflexivity|]. split; [reflexivity|].
  apply (Publish_in_flight_bound demo_env
           (demo_service (Ok [hook_A; runner_B; hook_C]) 200 "ok")
           demo_rnd 1 "user.created" demo_payload busy_schedule).
  vm_compute. reflexivity.
Defined.

Lemma RunEventAction_unknown_type_panics_witness :
  RunEventAction demo_env (demo_service (Ok [mail_action]) 200 "ok") "b0undary"
    mail_action "user.created" demo_payload = Panics nil_call /\
  (forall r,
      RunEventAction demo_env (demo_service (Ok [mail_action]) 200 "ok") "b0undary"
        mail_action "user.created" demo_payload <> Returns r) /\
  (forall rnd orgID st i n,
      panicked st = None ->
      nth_error (workers st) i = Some (WRunning mail_action n) ->
      step demo_env (demo_service (Ok [mail_action]) 200 "ok") rnd orgID
        "user.created" demo_payload (Worker i) st
      = Some (panic nil_call st) /\
      forall t,
        step demo_env (demo_service (Ok [mail_action]) 200 "ok") rnd orgID
          "user.created" demo_payload t (panic nil_call st) = None).
Proof.
  apply (RunEventAction_unknown_type_panics demo_env
           (demo_service (Ok [mail_action]) 200 "ok") "b0undary" mail_action
           "user.created" demo_payload); vm_compute; discriminate.
Defined.

(** A run on one action of another type: the worker that takes it panics,
    and [Publish] has not returned. *)
Example Publish_unknown_type_run :
  exists st,
    exec demo_env (demo_service (Ok [mail_action]) 200 "ok") demo_rnd 1
      "user.created" demo_payload first_worker_schedule init = Some st /\
    panicked st = Some nil_call /\
    returned st = None /\
    finished st = [].
Proof. eexists. split; [vm_compute; reflexivity|]. repeat split. Qed.

(** C1, on the code.  The workers call [wg.Add(1)] themselves (line 147),
    after [go] has started them.  When the caller's goroutine runs on before
    any worker has taken its first step, [wg.Wait] finds the counter at 0:
    [Publish] returns nil with every resolved action still in the channel and
    no call of [RunEventAction] begun. *)
Theorem Publish_returns_before_workers_run
    E s rnd orgID eventName eventPayload acts :
  RetrieveEventActionsByRegisteredEvent (actions s) orgID eventName = Ok acts ->
  exists st,
    exec E s rnd orgID eventName eventPayload
      (repeat Main (List.length acts + 7)) init = Some st /\
    returned st = Some None /\
    calls st = 0 /\
    finished st = [] /\
    in_flight st = 0 /\
    jobs st = acts /\
    workers st = [WEntry; WEntry; WEntry].
Proof.
  intros Hans. exists (returned_early orgID eventName acts).
  split; [now apply main_alone|]. repeat split.
Qed.

Lemma Publish_returns_before_workers_run_witness :
  exists st,
    exec demo_env (demo_service (Ok [hook_A; runner_B]) 200 "ok") demo_rnd 1
      "user.created" demo_payload (repeat Main 9) init = Some st /\
    returned st = Some None /\
    calls st = 0 /\
    finished st = [] /\
    in_flight st = 0 /\
    jobs st = [hook_A; runner_B] /\
    workers st = [WEntry; WEntry; WEntry].
Proof.
  apply (Publish_returns_before_workers_run demo_env
           (demo_service (Ok [hook_A; runner_B]) 200 "ok") demo_rnd 1
           "user.created" demo_payload [hook_A; runner_B]).
  reflexivity.
Defined.



(** The other branch, run: the store fails, [Publish] returns its error. *)
Example Publish_resolution_failure_run :
  exec demo_env (refusing_service (Err (ErrNew "database is locked"))) demo_rnd 1
    "user.created" demo_payload [Main] init
  = Some (resolution_failed 1 "user.created" (ErrNew "database is locked")).
Proof. reflexivity. Qed.



(** ** Further properties of the builders and of the executor *)

Lemma to_json_PublishEvent_Err ev org payload e :
  to_json payload = Err e ->
  to_json (PublishEvent_value
             {| EventName := ev; PublishOrgId := org; Payload := payload |})
  = Err e.
Proof. intros H. cbn. rewrite H. reflexivity. Qed.

(** X1.  [createWebhookRequest] by cases.  A payload Marshal refuses gives
    the error of Marshal under "cannot serialize external webhook payload",
    whatever the URL is; otherwise a URL that does not parse gives "cannot
    create webhook request"; otherwise the request is built.  It fails in no
    other way. *)
Theorem createWebhookRequest_cases E eventName payload action :
  createWebhookRequest E eventName payload action
  = match to_json payload with
    | Err e => Err (ErrWrap "cannot serialize external webhook payload" e)
    | Ok j =>
        if url_Parse_ok E (URL action) then
          Ok (webhook_request eventName j action)
        else Err (ErrWrap "cannot create webhook request"
                    (ErrNew "parse: invalid URL"))
    end.
Proof.
  unfold createWebhookRequest, json_Marshal.
  destruct (to_json payload) as [j|e] eqn:Hj.
  - rewrite (to_json_PublishEvent _ _ _ _ Hj). cbn [bind wrap].
    unfold http_NewRequest. destruct (url_Parse_ok E (URL action)); reflexivity.
  - rewrite (to_json_PublishEvent_Err _ _ _ _ Hj). reflexivity.
Qed.

(** X2.  [createRunnerRequest] by cases.  A payload Marshal refuses gives
    "cannot serialize event payload", whatever the URL is; otherwise a URL
    that does not join gives "cannot create runner URL"; otherwise a joined
    URL that does not parse gives "cannot create runner request"; otherwise
    the request is built.  The metadata always serialize, and none of the
    error returns of the multipart writer (lines 195-226) is ever taken. *)
Theorem createRunnerRequest_cases E boundary eventName payload action :
  createRunnerRequest E boundary eventName payload action
  = match to_json payload with
    | Err e => Err (ErrWrap "cannot serialize event payload" e)
    | Ok j =>
        match url_JoinPath E (URL action) "execute" with
        | Err e => Err (ErrWrap "cannot create runner URL" e)
        | Ok u =>
            if url_Parse_ok E u then Ok (runner_request boundary u j action)
            else Err (ErrWrap "cannot create runner request"
                        (ErrNew "parse: invalid URL"))
        end
    end.
Proof.
  unfold createRunnerRequest, json_Marshal.
  rewrite to_json_runnerMetadata. cbn [bind wrap].
  destruct (to_json payload) as [j|e] eqn:Hj; [|reflexivity].
  cbn [bind wrap].
  unfold multipart.CreateFormFile, multipart.CreatePart, multipart.NewWriter.
  cbn [bind multipart.parts multipart.boundary multipart.closed List.length app].
  unfold multipart.Write at 1.
  cbn [multipart.lastpart multipart.parts List.length Nat.eqb andb bind
       multipart.write_last multipart.boundary multipart.closed
       multipart.PartHeader multipart.PartData append].
  unfold multipart.Write at 1.
  cbn [multipart.lastpart multipart.parts List.length Nat.eqb andb bind app
       multipart.write_last multipart.boundary multipart.closed
       multipart.PartHeader multipart.PartData append].
  unfold multipart.Write at 1.
  cbn [multipart.lastpart multipart.parts List.length Nat.eqb andb bind app
       multipart.write_last multipart.boundary multipart.closed
       multipart.PartHeader multipart.PartData append].
  unfold multipart.Close. cbn [bind multipart.parts multipart.boundary].
  destruct (url_JoinPath E (URL action) "execute") as [u|e]; [|reflexivity].
  cbn [bind wrap]. unfold http_NewRequest.
  destruct (url_Parse_ok E u); reflexivity.
Qed.

(** X3.  What the builders read of an action.  [createRunnerRequest] reads
    the name, the script and its language, the URL and the runner secret:
    two actions that agree on these give the same result, so neither the org
    id nor the type of the action reaches a runner.  [createWebhookRequest]
    reads the org id and the URL only. *)
Theorem builders_read_sets E boundary eventName payload a b c d :
  same_for_runner a b ->
  same_for_webhook c d ->
  createRunnerRequest E boundary eventName payload a
  = createRunnerRequest E boundary eventName payload b /\
  createWebhookRequest E eventName payload c
  = createWebhookRequest E eventName payload d.
Proof.
  intros (Hn & Hl & Hs & Hu & Hk) (Ho & Hu').
  split.
  - unfold createRunnerRequest. now rewrite Hn, Hl, Hs, Hu, Hk.
  - unfold createWebhookRequest. now rewrite Ho, Hu'.
Qed.

Lemma builders_read_sets_witness :
  createRunnerRequest demo_env "b0undary" "user.created" demo_payload runner_B
  = createRunnerRequest demo_env "b0undary" "user.created" demo_payload runner_B7 /\
  createWebhookRequest demo_env "user.created" demo_payload hook_A
  = createWebhookRequest demo_env "user.created" demo_payload
      {| OrgId := 1; Name := "renamed"; Type_ := "code"; URL := "http://h/hook";
         Script := "exit"; ScriptLanguage := "sh"; RunnerSecret := "k" |}.
Proof.
  apply (builders_read_sets demo_env "b0undary" "user.created" demo_payload
           runner_B runner_B7 hook_A
           {| OrgId := 1; Name := "renamed"; Type_ := "code";
              URL := "http://h/hook"; Script := "exit"; ScriptLanguage := "sh";
              RunnerSecret := "k" |}).
  - repeat split.
  - repeat split.
Defined.

(** X4.  What a result of [RunEventAction] tells.  An error is one of three:
    the error of the builder under "cannot create request", the error of the
    client on the request built under "cannot perform request", or the error
    of reading the body of the answer under "cannot read response body".  A
    response carries the status code and the whole body of the answer to the
    request built. *)
Theorem RunEventAction_result_read E s boundary action eventName payload r :
  RunEventAction E s boundary action eventName payload = Returns r ->
  exists createRequest,
    selectCreateRequest E boundary action = Some createRequest /\
    match r with
    | Err e =>
        (exists c, createRequest eventName payload action = Err c /\
                   e = ErrWrap "cannot create request" c) \/
        (exists req c, createRequest eventName payload action = Ok req /\
                       Do (client s) req = Err c /\
                       e = ErrWrap "cannot perform request" c) \/
        (exists req response c,
            createRequest eventName payload action = Ok req /\
            Do (client s) req = Ok response /\
            http.ResponseBody response = Err c /\
            e = ErrWrap "cannot read response body" c)
    | Ok response =>
        exists req answer,
          createRequest eventName payload action = Ok req /\
          Do (client s) req = Ok answer /\
          http.ResponseBody answer = Ok (Body response) /\
          Code response = http.StatusCode answer
    end.
Proof.
  unfold RunEventAction.
  destruct (selectCreateRequest E boundary action) as [create|]; [|discriminate].
  intros [= <-]. exists create. split; [reflexivity|].
  destruct (create eventName payload action) as [req|c] eqn:Hc; cbn [wrap bind].
  - destruct (Do (client s) req) as [answer|c] eqn:Hd; cbn [wrap bind].
    + destruct (http.ResponseBody answer) as [text|c] eqn:Hb; cbn [wrap bind].
      * exists req, answer. cbn [Body Code]. repeat split; auto.
      * right. right. exists req, answer, c. repeat split; auto.
    + right. left. exists req, c. repeat split; auto.
  - left. exists c. split; auto.
Qed.

Lemma RunEventAction_result_read_witness :
  exists createRequest,
    selectCreateRequest demo_env "b0undary" hook_A = Some createRequest /\
    ((exists c, createRequest "user.created" demo_payload hook_A = Err c /\
                ErrWrap "cannot read response body" (ErrNew "unexpected EOF")
                = ErrWrap "cannot create request" c) \/
     (exists req c,
         createRequest "user.created" demo_payload hook_A = Ok req /\
         Do (client (truncating_service (Ok [hook_A]))) req = Err c /\
         ErrWrap "cannot read response body" (ErrNew "unexpected EOF")
         = ErrWrap "cannot perform request" c) \/
     (exists req response c,
         createRequest "user.created" demo_payload hook_A = Ok req /\
         Do (client (truncating_service (Ok [hook_A]))) req = Ok response /\
         http.ResponseBody response = Err c /\
         ErrWrap "cannot read response body" (ErrNew "unexpected EOF")
         = ErrWrap "cannot read response body" c)).
Proof.
  apply (RunEventAction_result_read demo_env (truncating_service (Ok [hook_A]))
           "b0undary" hook_A "user.created" demo_payload
           (Err (ErrWrap "cannot read response body" (ErrNew "unexpected EOF")))).
  reflexivity.
Defined.

(** X5.  [RunEventAction] calls the client on the request it has built and on
    nothing else: two services whose clients answer that request alike give
    the same outcome.  When no request is built, the outcome is the same with
    every client. *)
Theorem RunEventAction_one_request E s s' boundary action eventName payload :
  (forall createRequest req,
      selectCreateRequest E boundary action = Some createRequest ->
      createRequest eventName payload action = Ok req ->
      Do (client s) req = Do (client s') req) ->
  RunEventAction E s boundary action eventName payload
  = RunEventAction E s' boundary action eventName payload.
Proof.
  intros H. unfold RunEventAction.
  destruct (selectCreateRequest E boundary action) as [create|]; [|reflexivity].
  specialize (H create).
  destruct (create eventName payload action) as [req|c]; [|reflexivity].
  cbn [wrap bind]. now rewrite (H req eq_refl eq_refl).
Qed.

Lemma RunEventAction_one_request_witness :
  RunEventAction demo_env (picky_service "http://h/hook") "b0undary" hook_A
    "user.created" demo_payload
  = RunEventAction demo_env (demo_service (Ok []) 204 "") "b0undary" hook_A
      "user.created" demo_payload.
Proof.
  apply (RunEventAction_one_request demo_env (picky_service "http://h/hook")
           (demo_service (Ok []) 204 "") "b0undary" hook_A "user.created"
           demo_payload).
  intros create req Hsel Hreq.
  injection Hsel as <-. vm_compute in Hreq. injection Hreq as <-. reflexivity.
Defined.

(** X6.  [RunEventAction] returns, with a response or an error, exactly when
    the type of the action is one of the two constants; for every other type
    it panics. *)
Theorem RunEventAction_returns_iff_known E s boundary action eventName payload :
  (exists r, RunEventAction E s boundary action eventName payload = Returns r)
  <-> known_type E action.
Proof.
  split.
  - intros (r & Hr). unfold known_type.
    destruct (String.eqb_spec (Type_ action) (ActionTypeCode E)) as [|Hc]; [auto|].
    destruct (String.eqb_spec (Type_ action) (ActionTypeWebhook E)) as [|Hw]; [auto|].
    unfold RunEventAction in Hr.
    rewrite (selectCreateRequest_unknown E boundary action Hc Hw) in Hr.
    discriminate.
  - apply RunEventAction_known.
Qed.

(** ** Further properties of the dispatcher *)

Lemma RunEventAction_panic E s boundary action eventName payload msg :
  RunEventAction E s boundary action eventName payload = Panics msg ->
  msg = nil_call /\ ~ known_type E action.
Proof.
  intros H. split.
  - unfold RunEventAction in H.
    destruct (selectCreateRequest E boundary action); [discriminate|].
    now injection H.
  - intros Hk.
    destruct (RunEventAction_known E s boundary action eventName payload Hk)
      as (r & Hr).
    congruence.
Qed.

Lemma Forall_middle {A : Type} (P : A -> Prop) (l1 l2 : list A) (x y : A) :
  Forall P (l1 ++ x :: l2) -> P y -> Forall P (l1 ++ y :: l2).
Proof.
  rewrite !Forall_app, !Forall_cons_iff. intros (H1 & _ & H2) Hy. auto.
Qed.

Lemma Forall_middle_elim {A : Type} (P : A -> Prop) (l1 l2 : list A) (x : A) :
  Forall P (l1 ++ x :: l2) -> P x.
Proof. rewrite Forall_app, Forall_cons_iff. now intros (_ & H & _). Qed.

Section PublishFacts.

Variable E : Env.
Variable s : EventsService.
Variable rnd : nat -> string.
Variable orgID : Z.
Variable eventName : string.
Variable eventPayload : value.

Local Abbreviation step := (step E s rnd orgID eventName eventPayload).
Local Abbreviation exec := (exec E s rnd orgID eventName eventPayload).
Local Abbreviation answer :=
  (RetrieveEventActionsByRegisteredEvent (actions s) orgID eventName).
Local Abbreviation Run n a := (RunEventAction E s (rnd n) a eventName eventPayload).
Local Abbreviation Inv2 := (Inv2 E s rnd eventName eventPayload).
Local Abbreviation quiescent := (quiescent E s rnd orgID eventName eventPayload).

Lemma step_Inv2 acts t st st' :
  Inv acts st -> Inv2 acts st -> step t st = Some st' -> Inv2 acts st'.
Proof.
  intros HI [(taken & Hfifo & Hlen) Hstarted Hres Hpanic] H.
  pose proof (inv_wg _ _ HI) as Hwg.
  destruct (inv_main _ _ HI) as [Hm1 _].
  unfold unsent in *.
  step_cases H; try discriminate; try congruence;
    try (destruct (nth_error_decompose _ _ _ Hnth) as (l1 & l2 & Hw & Hset);
         rewrite Hw in *).
  - (* spawn, or leave the loop *)
    destruct (Nat.ltb w numWorkers); injection H as <-;
      constructor; unfold unsent; state_simpl; rewrite ?Hmain; auto.
    + exists taken. auto.
    + apply Forall_app. split; [assumption|]. repeat constructor.
    + exists taken. auto.
  - (* close *)
    injection H as <-; constructor; unfold unsent; state_simpl; auto.
    exists taken. auto.
  - (* send *)
    destruct (Nat.ltb _ _); [|discriminate].
    injection H as <-; constructor; unfold unsent; state_simpl; auto.
    exists taken. split; [|assumption].
    rewrite Hfifo, <- !app_assoc. reflexivity.
  - (* wait *)
    destruct (wg st =? 0)%Z; [|discriminate].
    injection H as <-; constructor; unfold unsent; state_simpl; auto.
    exists taken. auto.
  - (* wg.Add *)
    injection H as <-; constructor; unfold unsent; state_simpl;
      rewrite ?Hw, ?Hset; auto.
    + exists taken. auto.
    + eapply Forall_middle; [eassumption | exact I].
  - (* receive *)
    destruct (jobs st) as [|a q] eqn:Hj.
    + destruct (jobs_closed st); [|discriminate].
      injection H as <-; constructor; unfold unsent; state_simpl;
        rewrite ?Hw, ?Hset, ?Hj; auto.
      * exists taken. auto.
      * eapply Forall_middle; [eassumption | exact I].
    + injection H as <-; constructor; unfold unsent; state_simpl;
        rewrite ?Hw, ?Hset; auto.
      * exists (taken ++ [a])%list. split.
        -- rewrite Hfifo, <- !app_assoc. reflexivity.
        -- rewrite length_app. cbn [List.length]. lia.
      * eapply Forall_middle; [eassumption|].
        cbn [started_in_order]. rewrite Hfifo, <- Hlen.
        rewrite nth_error_app2 by lia. rewrite Nat.sub_diag. reflexivity.
  - (* RunEventAction ends *)
    pose proof (Forall_middle_elim _ _ _ _ Hstarted) as Hn.
    cbn [started_in_order] in Hn.
    destruct (Run n a) as [[r|e]|msg] eqn:Hrun; injection H as <-;
      constructor; unfold unsent; state_simpl; rewrite ?Hw, ?Hset; auto;
      try (exists taken; auto; fail);
      try (eapply Forall_middle; [eassumption | exact I]);
      try (apply Forall_app; split; [assumption|];
           repeat constructor; exists n; split; assumption).
    right. destruct (RunEventAction_panic _ _ _ _ _ _ _ Hrun) as [-> Hk].
    split; [reflexivity|]. exists a. split; [|assumption].
    eapply nth_error_In; eauto.
  - (* wg.Done *)
    rewrite filter_app in Hwg. cbn [filter active] in Hwg.
    rewrite length_app in Hwg. cbn [List.length] in Hwg.
    destruct (Z.ltb_spec (wg st - 1) 0); [lia|].
    injection H as <-; constructor; unfold unsent; state_simpl;
      rewrite ?Hw, ?Hset; auto.
    + exists taken. auto.
    + eapply Forall_middle; [eassumption | exact I].
Qed.

Lemma reachable_Inv2 acts sched st :
  answer = Ok acts -> exec sched init = Some st -> sched <> [] -> Inv2 acts st.
Proof.
  intros Hans. revert st.
  induction sched as [|t sched IH] using rev_ind; intros st H Hne; [congruence|].
  apply exec_snoc in H as (mid & Hmid & Hstep).
  destruct sched as [|t0 sched0].
  - injection Hmid as <-.
    apply (init_steps E s rnd orgID eventName eventPayload) in Hstep as [_ Hstep].
    unfold Publish_step in Hstep. cbn [main init] in Hstep. rewrite Hans in Hstep.
    injection Hstep as <-. constructor; cbn; auto.
    exists []. auto.
  - eapply step_Inv2; [| |exact Hstep].
    + eapply reachable_Inv; eauto. discriminate.
    + apply IH; [assumption|discriminate].
Qed.


Lemma quiescent_nonempty sched st :
  exec sched init = Some st -> quiescent st -> sched <> [].
Proof.
  intros H Hq ->. injection H as <-.
  now apply (init_not_quiescent E s rnd orgID eventName eventPayload).
Qed.

(** X7.  At the end of a run in which nothing has panicked, [Publish] has
    returned nil and [RunEventAction] has been called once on each resolved
    action, no more and no less: the actions of the calls that have ended are
    the resolved ones up to their order, and the result kept for each is the
    one its call returned. *)
Theorem Publish_runs_each_action_once acts sched st :
  answer = Ok acts ->
  exec sched init = Some st ->
  panicked st = None ->
  quiescent st ->
  returned st = Some None /\
  Permutation (map fst (finished st)) acts /\
  calls st = List.length acts /\
  Forall (call_ok E s rnd eventName eventPayload acts) (finished st).
Proof.
  intros Hans H Hnp Hq.
  pose proof (quiescent_nonempty _ _ H Hq) as Hne.
  pose proof (reachable_Inv E s rnd orgID eventName eventPayload
                acts sched st Hans H Hne) as HI.
  destruct (quiescent_done E s rnd orgID eventName eventPayload acts st HI
              (reachable_pool_ok E s rnd orgID eventName eventPayload _ _ H)
              Hnp Hq) as (Hm & _ & _ & Hp & Hc).
  repeat split; auto.
  - unfold returned. now rewrite Hm.
  - apply (inv_results _ _ _ _ _ _ _ (reachable_Inv2 acts sched st Hans H Hne)).
Qed.



Lemma step_log_outcome t st st' :
  filter is_summary (log st) = expected_summary orgID eventName st /\
  filter is_resolve_error (log st) = expected_resolve_error orgID eventName st ->
  step t st = Some st' ->
  filter is_summary (log st') = expected_summary orgID eventName st' /\
  filter is_resolve_error (log st') = expected_resolve_error orgID eventName st'.
Proof.
  unfold expected_summary, expected_resolve_error. intros [H1 H2] H.
  step_cases H; try discriminate.
  - destruct answer as [l|e]; injection H as <-; state_simpl;
      rewrite ?filter_app, ?H1, ?H2; cbn; auto.
  - destruct (Nat.ltb w numWorkers); injection H as <-; state_simpl; auto.
  - injection H as <-; state_simpl; auto.
  - destruct (Nat.ltb _ _); [|discriminate]. injection H as <-; state_simpl; auto.
  - destruct (wg st =? 0)%Z; [|discriminate]. injection H as <-; state_simpl.
    rewrite !filter_app, H1, H2. cbn. auto.
  - injection H as <-; state_simpl; auto.
  - destruct (jobs st) as [|a q]; [destruct (jobs_closed st); [|discriminate]|];
      injection H as <-; state_simpl; auto.
  - destruct (Run n a) as [[r|e]|msg]; injection H as <-; state_simpl;
      rewrite ?filter_app, ?H1, ?H2; cbn; rewrite ?app_nil_r; auto.
  - destruct (wg st - 1 <? 0)%Z; injection H as <-; state_simpl; auto.
Qed.

(** X9.  The log tells how [Publish] ended.  The line "event published
    successfully" is in the log once when [Publish] has returned nil, with the
    number of resolved actions and 3 workers, and not at all before or when it
    has returned an error; the line "retrieving event actions by registered
    event" is in it once, with the error, when [Publish] has returned that
    error, and not at all otherwise. *)
Theorem Publish_logs_outcome sched st :
  exec sched init = Some st ->
  filter is_summary (log st) = expected_summary orgID eventName st /\
  filter is_resolve_error (log st) = expected_resolve_error orgID eventName st /\
  (forall acts, answer = Ok acts -> main st <> AtResolve -> resolved st = acts).
Proof.
  intros H. split; [|split].
  - refine (proj1 (exec_invariant E s rnd orgID eventName eventPayload
             (fun st =>
                filter is_summary (log st) = expected_summary orgID eventName st /\
                filter is_resolve_error (log st)
                = expected_resolve_error orgID eventName st)
             _ sched init st _ H)).
    + intros t a b. apply step_log_outcome.
    + split; reflexivity.
  - refine (proj2 (exec_invariant E s rnd orgID eventName eventPayload
             (fun st =>
                filter is_summary (log st) = expected_summary orgID eventName st /\
                filter is_resolve_error (log st)
                = expected_resolve_error orgID eventName st)
             _ sched init st _ H)).
    + intros t a b. apply step_log_outcome.
    + split; reflexivity.
  - intros acts Hans Hm. destruct sched as [|t sched].
    + injection H as <-. now destruct Hm.
    + apply (inv_resolved acts st).
      eapply reachable_Inv; eauto. discriminate.
Qed.











(** X15.  A worker leaves its loop only when the channel is closed and
    drained.  In every state of a run in which some worker has left the loop
    of line 149, the channel is closed and empty, nothing is left to send, and
    every resolved action has been taken by a call of [RunEventAction]. *)
Theorem Publish_workers_leave_drained_channel acts sched st :
  answer = Ok acts ->
  exec sched init = Some st ->
  existsb gone (workers st) = true ->
  jobs st = [] /\ jobs_closed st = true /\ unsent st = [] /\
  calls st = List.length acts.
Proof.
  intros Hans H Hg.
  assert (Hne : sched <> []).
  { intros ->. injection H as <-. discriminate. }
  pose proof (reachable_Inv E s rnd orgID eventName eventPayload
                acts sched st Hans H Hne) as HI.
  pose proof (reachable_Inv2 acts sched st Hans H Hne) as HI2.
  destruct (inv_gone _ _ HI Hg) as [Hj Hc].
  destruct (inv_fifo _ _ _ _ _ _ _ HI2) as (taken & Hfifo & Hlen).
  pose proof (inv_closed _ _ HI) as Hcl. rewrite Hc in Hcl.
  assert (Hu : unsent st = []).
  { unfold unsent. destruct (main st); try discriminate; reflexivity. }
  repeat split; auto.
  rewrite Hfifo, Hj, Hu, !length_app. cbn [List.length]. lia.
Qed.

End PublishFacts.

Lemma Publish_runs_each_action_once_witness :
  exists st,
    exec demo_env (refusing_service (Ok [hook_A; runner_B])) demo_rnd 1
      "user.created" demo_payload orderly_schedule init = Some st /\
    (returned st = Some None /\
     Permutation (map fst (finished st)) [hook_A; runner_B] /\
     calls st = 2 /\
     Forall (call_ok demo_env (refusing_service (Ok [hook_A; runner_B])) demo_rnd
               "user.created" demo_payload [hook_A; runner_B])
       (finished st)).
Proof.
  eexists. split; [vm_compute; reflexivity|].
  apply (Publish_runs_each_action_once demo_env
           (refusing_service (Ok [hook_A; runner_B])) demo_rnd 1 "user.created"
           demo_payload [hook_A; runner_B] orderly_schedule).
  - reflexivity.
  - vm_compute. reflexivity.
  - reflexivity.
  - intros [|[|[|[|[|i]]]]]; reflexivity.
Defined.


Lemma Publish_logs_outcome_witness :
  exists st,
    exec demo_env (refusing_service (Ok [hook_A; runner_B])) demo_rnd 1
      "user.created" demo_payload orderly_schedule init = Some st /\
    expected_summary 1 "user.created" st = [LogPublished "user.created" 1 2 3] /\
    (filter is_summary (log st) = expected_summary 1 "user.created" st /\
     filter is_resolve_error (log st) = expected_resolve_error 1 "user.created" st /\
     (forall acts,
         RetrieveEventActionsByRegisteredEvent
           (actions (refusing_service (Ok [hook_A; runner_B]))) 1 "user.created"
         = Ok acts ->
         main st <> AtResolve -> resolved st = acts)).
Proof.
  eexists. split; [vm_compute; reflexivity|]. split; [reflexivity|].
  apply (Publish_logs_outcome demo_env
           (refusing_service (Ok [hook_A; runner_B])) demo_rnd 1 "user.created"
           demo_payload orderly_schedule).
  vm_compute. reflexivity.
Defined.






Lemma Publish_workers_leave_drained_channel_witness :
  exists st,
    exec demo_env (refusing_service (Ok [hook_A; runner_B])) demo_rnd 1
      "user.created" demo_payload orderly_schedule init = Some st /\
    (jobs st = [] /\ jobs_closed st = true /\ unsent st = [] /\ calls st = 2).
Proof.
  eexists. split; [vm_compute; reflexivity|].
  apply (Publish_workers_leave_drained_channel demo_env
           (refusing_service (Ok [hook_A; runner_B])) demo_rnd 1 "user.created"
           demo_payload [hook_A; runner_B] orderly_schedule).
  - reflexivity.
  - vm_compute. reflexivity.
  - reflexivity.
Defined.
